(** * core/asset/finalize.go: transaction finalization and the account-UTXO index

    A shallow embedding of [src/core/asset/finalize.go].  Go integers are
    [Z] with their wrap-around written out, Go [error] values are
    [option error] ([None] is [nil]), the relational store and the ledger
    engine are explicit state, and every call that leaves the package is
    answered by an oracle held in the environment. *)

From Stdlib Require Import ZArith Lia.
From stdpp Require Import base option list gmap strings pretty.

Local Open Scope Z_scope.
Local Open Scope string_scope.
Local Open Scope list_scope.

(** ** Machine integers *)

Definition wrap_u64 (z : Z) : Z := z mod 2 ^ 64.
Definition wrap_i32 (z : Z) : Z := (z + 2 ^ 31) mod 2 ^ 32 - 2 ^ 31.
Definition wrap_i64 (z : Z) : Z := (z + 2 ^ 63) mod 2 ^ 64 - 2 ^ 63.

Definition is_u32 (z : Z) : Prop := 0 <= z < 2 ^ 32.

(** [height++] on a [uint64]. *)
Definition u64_succ (h : Z) : Z := wrap_u64 (h + 1).
Definition u64_add (h k : Z) : Z := wrap_u64 (h + k).

(** ** Errors *)

(** Error values are compared by identity.  The two of lines 21-27 are
    created by this package; the packages it imports cannot import it back,
    so the errors they hand over have a root created elsewhere: one of the
    three this file names, or any [Other] one. *)
Inductive foreign_root : Type :=
  | validation_ErrBadTx       (* validation.ErrBadTx *)
  | context_Canceled          (* context.Canceled *)
  | context_DeadlineExceeded  (* context.DeadlineExceeded *)
  | Other (text : string).

Inductive sentinel : Type :=
  | ErrBadTxTemplate          (* asset.ErrBadTxTemplate, line 23 *)
  | ErrRejected               (* asset.ErrRejected, line 26 *)
  | Foreign (f : foreign_root).

#[global] Instance foreign_root_eq_dec : EqDecision foreign_root.
Proof. solve_decision. Defined.

#[global] Instance sentinel_eq_dec : EqDecision sentinel.
Proof. solve_decision. Defined.

Definition foreign_text (f : foreign_root) : string :=
  match f with
  | validation_ErrBadTx => "invalid transaction"
  | context_Canceled => "context canceled"
  | context_DeadlineExceeded => "context deadline exceeded"
  | Other text => text
  end.

Definition sentinel_text (s : sentinel) : string :=
  match s with
  | ErrBadTxTemplate => "bad transaction template"
  | ErrRejected => "transaction rejected"
  | Foreign f => foreign_text f
  end.

Record error : Type := mkError {
  err_root : sentinel;
  err_msg : string;
  err_detail : list string
}.

#[global] Instance error_eq_dec : EqDecision error.
Proof. solve_decision. Defined.

(** An error as another package returns it: possibly wrapped there
    already, with a root that is not one of this package's. *)
Record foreign_error : Type := mkForeignError {
  f_root : foreign_root;
  f_msg : string;
  f_detail : list string
}.

Definition of_foreign (e : foreign_error) : error :=
  {| err_root := Foreign (f_root e);
     err_msg := f_msg e;
     err_detail := f_detail e |}.

Definition foreign_New (f : foreign_root) : foreign_error :=
  {| f_root := f; f_msg := foreign_text f; f_detail := [] |}.

(** Modelled from the spec: package [chain/errors] is not under src/.  The
    spec speaks of errors "classified" by kind, "wrapped with detail
    strings identifying the failing stage" and "carrying the validation
    engine's detail string"; an error is therefore its root (the kind it
    is classified by), its message and its detail strings.  Wrapping keeps
    the root and prefixes the message, [WithDetail] also records the text
    as detail, [nil] stays [nil]. *)
Module errors.

Definition New (s : sentinel) : error :=
  {| err_root := s; err_msg := sentinel_text s; err_detail := [] |}.

Definition Error (e : error) : string := err_msg e.

Definition wrap (e : error) (msg : string) : error :=
  if decide (msg = EmptyString) then e
  else {| err_root := err_root e;
          err_msg := msg +:+ ": " +:+ err_msg e;
          err_detail := err_detail e |}.

Definition Wrap (err : option error) (msg : string) : option error :=
  match err with
  | None => None
  | Some e => Some (wrap e msg)
  end.

Definition Wrapf := Wrap.

Definition WithDetail (err : option error) (text : string) : option error :=
  match err with
  | None => None
  | Some e =>
      if decide (text = EmptyString) then Some e
      else
        let e1 := wrap e text in
        Some {| err_root := err_root e1;
                err_msg := err_msg e1;
                err_detail := err_detail e1 ++ [text] |}
  end.

Definition Root (err : option error) : option sentinel :=
  match err with
  | None => None
  | Some e => Some (err_root e)
  end.

Definition Detail (err : option error) : string :=
  match err with
  | None => EmptyString
  | Some e => String.concat "; " (err_detail e)
  end.

End errors.

(** ** Derivation index key (lines 337-339) *)

(** [toKeyIndex] indexes a slice; [None] is the run-time panic of an index
    out of range. *)
Definition toKeyIndex (i : list Z) : option Z :=
  match i !! 0%nat, i !! 1%nat with
  | Some i0, Some i1 =>
      Some (Z.lor (wrap_i64 (Z.shiftl (wrap_i64 i0) 31))
                  (wrap_i64 (Z.land i1 0x7fffffff)))
  | _, _ => None
  end.

(** ** Data model (packages bc, state, txdb and txbuilder, as far as this
    file reads them) *)

(** [bc.Hash] is a 32-byte array that this file only compares, uses as a
    map key and renders with [String()]; it is represented by that hex
    text. *)
Abbreviation Hash := string (only parsing).
Definition Hash_String (h : Hash) : string := h.

Abbreviation bytes := (list Byte.byte) (only parsing).

Record Outpoint : Type := mkOutpoint {
  op_Hash : Hash;
  op_Index : Z                      (* uint32 *)
}.

(** Modelled from the spec: [bc.TxInput.IsIssuance] is not under src/; an
    input is "referencing a previous output or marked as an issuance". *)
Record TxInput : Type := mkTxInput {
  Previous : Outpoint;
  in_issuance : bool
}.

Definition IsIssuance (i : TxInput) : bool := in_issuance i.

Record TxOutput : Type := mkTxOutput {
  AssetID : Hash;
  Amount : Z;                       (* uint64 *)
  Script : bytes;
  Metadata : bytes
}.

Record TxData : Type := mkTxData {
  Inputs : list TxInput;
  Outputs : list TxOutput
}.

Record Tx : Type := mkTx {
  tx_data : TxData;
  tx_Hash : Hash
}.

Record Block : Type := mkBlock {
  Height : Z;                       (* uint64 *)
  Transactions : list Tx
}.

(** A signature entry of a template; only their number is read here. *)
Record SigInput : Type := mkSigInput {
  sig_components : list string
}.

Record Template : Type := mkTemplate {
  Unsigned : TxData;
  tpl_Inputs : list SigInput
}.

(** [txdb.Output]: a [state.Output] with the owning account. *)
Record Output : Type := mkOutput {
  out_TxOutput : TxOutput;
  out_Outpoint : Outpoint;
  ManagerNodeID : string;
  AccountID : string;
  AddrIndex : Z * Z                 (* [2]uint32 *)
}.

(** One row of the [account_utxos] relation, with the columns the
    statements of this file name. *)
Record utxo_row : Type := mkRow {
  tx_hash : string;
  index : Z;
  asset_id : string;
  amount : Z;
  manager_node_id : string;
  account_id : string;
  addr_index : Z;
  script : bytes;
  metadata : bytes;
  spent_in_pool : bool;
  confirmed_in : option Z;
  block_pos : option Z
}.

Definition row_key (r : utxo_row) : string * Z := (tx_hash r, index r).

Definition set_spent_in_pool (v : bool) (r : utxo_row) : utxo_row :=
  {| tx_hash := tx_hash r; index := index r; asset_id := asset_id r;
     amount := amount r; manager_node_id := manager_node_id r;
     account_id := account_id r; addr_index := addr_index r;
     script := script r; metadata := metadata r;
     spent_in_pool := v;
     confirmed_in := confirmed_in r; block_pos := block_pos r |}.

Definition set_confirmed (height pos : Z) (r : utxo_row) : utxo_row :=
  {| tx_hash := tx_hash r; index := index r; asset_id := asset_id r;
     amount := amount r; manager_node_id := manager_node_id r;
     account_id := account_id r; addr_index := addr_index r;
     script := script r; metadata := metadata r;
     spent_in_pool := spent_in_pool r;
     confirmed_in := Some height; block_pos := Some pos |}.

(** ** The world outside the package *)

Inductive result (A : Type) : Type :=
  | Ok (a : A)
  | Err (e : foreign_error).
Arguments Ok {A} a.
Arguments Err {A} e.

(** Calls that leave the package, in the order they are made. *)
Inductive Call : Type :=
  | CallLatestBlock
  | CallAssembleSignatures (t : Template)
  | CallAddTx (tx : Tx)
  | CallSubmit (tx : Tx)
  | CallWaitForBlock (height : Z)
  | CallGetTxs (h : Hash).

Inductive log_value : Type :=
  | LogString (s : string)
  | LogNumber (n : Z)
  | LogError (e : option error).

Definition log_entry : Type := list (string * log_value).

(** What the [select] of the wait loop receives: either [ctx.Done()] fired
    and [ctx.Err()] is the given context error, or the channel of
    [waitBlock] delivered the result of [fc.WaitForBlock], after which
    [fc.GetTxs] answers with the pool and chain transactions. *)
Inductive ctx_error : Type := CtxCanceled | CtxDeadlineExceeded.

Definition ctx_Err (c : ctx_error) : error :=
  match c with
  | CtxCanceled => errors.New (Foreign context_Canceled)
  | CtxDeadlineExceeded => errors.New (Foreign context_DeadlineExceeded)
  end.

Inductive select_event : Type :=
  | CtxDone (c : ctx_error)
  | BlockWaited (werr : option foreign_error)
                (txs : result (gmap string Tx * gmap string Tx)).

Record Env : Type := mkEnv {
  Generator : option string;        (* var Generator *string, line 29 *)
  AssembleSignatures : Template -> result Tx;
  MarshalText : Tx -> result string;
  fc_LatestBlock : result (option Block);
  fc_AddTx : Tx -> option foreign_error;
  rpcclient_Submit : Tx -> option foreign_error;
  select_events : list select_event
}.

Record World : Type := mkWorld {
  account_utxos : list utxo_row;    (* the relation *)
  db_faults : list (option foreign_error);
                                    (* failures of the next pg.Exec calls *)
  pool : list Tx;                   (* the ledger engine's pool *)
  trace : list Call;
  log : list log_entry
}.

Definition set_account_utxos (t : list utxo_row) (w : World) : World :=
  {| account_utxos := t; db_faults := db_faults w; pool := pool w;
     trace := trace w; log := log w |}.
Definition set_db_faults (f : list (option foreign_error)) (w : World)
  : World :=
  {| account_utxos := account_utxos w; db_faults := f; pool := pool w;
     trace := trace w; log := log w |}.
Definition set_pool (p : list Tx) (w : World) : World :=
  {| account_utxos := account_utxos w; db_faults := db_faults w; pool := p;
     trace := trace w; log := log w |}.
Definition set_trace (t : list Call) (w : World) : World :=
  {| account_utxos := account_utxos w; db_faults := db_faults w;
     pool := pool w; trace := t; log := log w |}.
Definition set_log (l : list log_entry) (w : World) : World :=
  {| account_utxos := account_utxos w; db_faults := db_faults w;
     pool := pool w; trace := trace w; log := l |}.

(** A state monad over the world. *)
Definition M (A : Type) : Type := World -> A * World.

Definition ret {A} (a : A) : M A := fun w => (a, w).
Definition bind {A B} (m : M A) (k : A -> M B) : M B :=
  fun w => let '(a, w') := m w in k a w'.

Notation "'do' x <~ m ;; k" := (bind m (fun x => k))
  (at level 10, x name, m at level 99, k at level 200, only parsing).

Definition call (c : Call) : M unit :=
  fun w => (tt, set_trace (trace w ++ [c]) w).

(** [chainlog.Write] with its key/value pairs. *)
Definition chainlog_Write (kv : log_entry) : M unit :=
  fun w => (tt, set_log (log w ++ [kv]) w).

(** Modelled from the spec: [chainlog.Error] is not under src/; relay
    failure "is logged", so it writes the error as one log entry. *)
Definition chainlog_Error (e : option error) : M unit :=
  chainlog_Write [("error", LogError e)].

(** ** The relational store (package pg) *)

(** Modelled from the spec: package [chain/database/pg] is not under src/.
    [pg.Exec] runs one statement on the [account_utxos] relation.  It
    fails when the session does (the next entry of [db_faults]) or when
    the statement itself raises; a failed statement changes no row. *)
Definition pg_Exec (stmt : list utxo_row -> result (list utxo_row))
  : M (option error) :=
  fun w =>
    match db_faults w with
    | Some e :: rest => (Some (of_foreign e), set_db_faults rest w)
    | _ =>
        let w1 := set_db_faults (tail (db_faults w)) w in
        match stmt (account_utxos w) with
        | Ok t => (None, set_account_utxos t w1)
        | Err e => (Some (of_foreign e), w1)
        end
    end.

Definition unique_violation : foreign_error :=
  foreign_New (Other "duplicate key value violates unique constraint").

(** [INSERT INTO account_utxos ... SELECT * FROM outputs] against the
    uniqueness of [(tx_hash, index)].  The proposed rows are taken in
    order; a row whose key is already there (from before, or from an
    earlier row of the same statement) raises without an [ON CONFLICT]
    clause and is skipped with [ON CONFLICT (tx_hash, index) DO NOTHING]. *)
Inductive on_conflict : Type := NoConflictClause | DoNothing.

Fixpoint sql_insert (oc : on_conflict) (proposed tbl : list utxo_row)
  : result (list utxo_row) :=
  match proposed with
  | [] => Ok tbl
  | r :: rest =>
      if decide (row_key r ∈ row_key <$> tbl) then
        match oc with
        | NoConflictClause => Err unique_violation
        | DoNothing => sql_insert oc rest tbl
        end
      else sql_insert oc rest (tbl ++ [r])
  end.

(** [UPDATE account_utxos SET spent_in_pool=$1 WHERE (tx_hash, index) IN
    (SELECT unnest($2), unnest($3))]; the two arrays are filled in
    lock-step and are given as the list of their pairs. *)
Definition mark_rows (spent : bool) (keys : list (string * Z))
    (tbl : list utxo_row) : list utxo_row :=
  (fun r => if decide (row_key r ∈ keys)
            then set_spent_in_pool spent r else r) <$> tbl.

Definition sql_set_spent_in_pool (spent : bool) (keys : list (string * Z))
    (tbl : list utxo_row) : result (list utxo_row) :=
  Ok (mark_rows spent keys tbl).

(** [UPDATE account_utxos SET confirmed_in=$3, block_pos=pos FROM (SELECT
    unnest($1) AS txhash, unnest($2) AS pos) t WHERE tx_hash=txhash]; a
    row joined by several entries of [t] is updated from the first. *)
Definition confirm_rows (height : Z) (t : list (string * Z))
    (tbl : list utxo_row) : list utxo_row :=
  (fun r => match list_find (fun p => p.1 = tx_hash r) t with
            | Some (_, (_, pos)) => set_confirmed height pos r
            | None => r
            end) <$> tbl.

Definition sql_set_confirmed (height : Z) (t : list (string * Z))
    (tbl : list utxo_row) : result (list utxo_row) :=
  Ok (confirm_rows height t tbl).

(** ** The account-UTXO index *)

(** Lines 251-261 and the column list of the statement: the row proposed
    for one output, [$1..$9] in the order of the [INSERT] columns.  The
    other columns take their defaults.  [out.AddrIndex[:]] always has two
    elements, so [toKeyIndex] does not panic here. *)
Definition proposed_row (out : Output) : utxo_row :=
  {| tx_hash := Hash_String (op_Hash (out_Outpoint out));
     index := op_Index (out_Outpoint out);
     asset_id := Hash_String (AssetID (out_TxOutput out));
     amount := wrap_i64 (Amount (out_TxOutput out));
     manager_node_id := ManagerNodeID out;
     account_id := AccountID out;
     addr_index :=
       default 0 (toKeyIndex [(AddrIndex out).1; (AddrIndex out).2]);
     script := Script (out_TxOutput out);
     metadata := Metadata (out_TxOutput out);
     spent_in_pool := false;
     confirmed_in := None;
     block_pos := None |}.

(** Lines 239-285. *)
Definition insertAccountOutputs (outs : list Output) : M (option error) :=
  do err <~ pg_Exec (sql_insert DoNothing (proposed_row <$> outs)) ;;
  ret (errors.Wrap err EmptyString).

(** Lines 221-229: the outpoints spent by the non-issuance inputs. *)
Definition prevouts_of (tx : Tx) : list (string * Z) :=
  omap (fun i : TxInput =>
          if IsIssuance i then None
          else Some (Hash_String (op_Hash (Previous i)),
                     op_Index (Previous i)))
       (Inputs (tx_data tx)).

Definition prevouts (txs : list Tx) : list (string * Z) :=
  flat_map prevouts_of txs.

(** Lines 216-236. *)
Definition markPrevSpentInPool (spent : bool) (txs : list Tx)
  : M (option error) :=
  pg_Exec (sql_set_spent_in_pool spent (prevouts txs)).

(** Lines 155-158: hash and position of every transaction of the block. *)
Definition block_positions (b : Block) : list (string * Z) :=
  imap (fun i tx => (Hash_String (tx_Hash tx), wrap_i32 (Z.of_nat i)))
       (Transactions b).

(** Lines 150-183.  The Go function has no result. *)
Definition addBlock (b : Block) (conflicts : list Tx) : M unit :=
  do err <~ pg_Exec (sql_set_confirmed (Height b) (block_positions b)) ;;
  do _ <~ match err with
       | Some _ =>
           chainlog_Write [("at", LogString "account utxos indexing block");
                           ("block", LogNumber (Height b));
                           ("error", LogError (errors.Wrap err EmptyString))]
       | None => ret tt
       end ;;
  do err <~ markPrevSpentInPool false conflicts ;;
  match err with
  | Some _ =>
      chainlog_Write [("block", LogNumber (Height b));
                      ("error", LogError (errors.Wrap err EmptyString))]
  | None => ret tt
  end.

(** ** The finalize pipeline *)

(** Modelled from the spec: the ledger engine ([fc], package cos) is not
    under src/.  [AddTx] is "add-transaction-to-pool": when the engine
    accepts the transaction it is in the pool afterwards. *)
Definition AddTx (env : Env) (msg : Tx) : M (option error) :=
  fun w =>
    let w1 := set_trace (trace w ++ [CallAddTx msg]) w in
    match fc_AddTx env msg with
    | None => (None, set_pool (pool w1 ++ [msg]) w1)
    | Some e => (Some (of_foreign e), w1)
    end.

Definition Submit (env : Env) (msg : Tx) : M (option error) :=
  do _ <~ call (CallSubmit msg) ;;
  ret (of_foreign <$> rpcclient_Submit env msg).

(** [fmt.Sprint] of an error value. *)
Definition Sprint_error (err : option error) : string :=
  match err with
  | Some e => errors.Error e
  | None => "<nil>"
  end.

(** Lines 124-146. *)
Definition publishTx (env : Env) (msg : Tx) : M (option error) :=
  do err <~ AddTx env msg ;;
  if decide (errors.Root err = Some (Foreign validation_ErrBadTx)) then
    let detail := errors.Detail err in
    let err := errors.Wrap (Some (errors.New ErrBadTxTemplate))
                           (Sprint_error err) in
    ret (errors.WithDetail err detail)
  else if decide (err <> None) then
    ret (errors.Wrap err "add tx to blockchain")
  else
    match Generator env with
    | Some g =>
        if decide (g <> EmptyString) then
          do err <~ Submit env msg ;;
          if decide (err <> None) then
            let err := errors.Wrap err "generator transaction notice" in
            do _ <~ chainlog_Error err ;;
            ret err
          else ret None
        else ret None
    | None => ret None
    end.

(** Lines 34-57.  The result is the Go pair [( *bc.Tx, error)]. *)
Definition FinalizeTx (env : Env) (txTemplate : Template)
  : M (option Tx * option error) :=
  if (length (Inputs (Unsigned txTemplate))
        <? length (tpl_Inputs txTemplate))%nat then
    ret (None, errors.WithDetail (Some (errors.New ErrBadTxTemplate))
                                 "too many inputs in template")
  else
    do _ <~ call (CallAssembleSignatures txTemplate) ;;
    match AssembleSignatures env txTemplate with
    | Err e =>
        ret (None, errors.WithDetail (Some (errors.New ErrBadTxTemplate))
                                     (f_msg e))
    | Ok msg =>
        do err <~ publishTx env msg ;;
        if decide (err <> None) then
          match MarshalText env msg with
          | Err _ => ret (None, err)
          | Ok rawtx => ret (None, errors.Wrapf err ("tx=" +:+ rawtx))
          end
        else ret (Some msg, None)
    end.

(** ** The confirmation waiter *)

(** What a call has done after a finite run of select events: it has
    returned its Go pair, it is still blocked in the [select], or it has
    panicked on a nil pointer. *)
Inductive outcome : Type :=
  | Returned (tx : option Tx) (err : option error)
  | Waiting
  | Panicked.

(** Lines 83-115: one iteration per event.  The operand [waitBlock(ctx,
    height)] of the [select] is evaluated on entry, whichever case is
    then taken. *)
Fixpoint wait_loop (tx : Tx) (height : Z) (events : list select_event)
  : M outcome :=
  let height := u64_succ height in
  do _ <~ call (CallWaitForBlock height) ;;
  match events with
  | [] => ret Waiting
  | CtxDone c :: _ => ret (Returned None (Some (ctx_Err c)))
  | BlockWaited (Some e) _ :: _ =>
      ret (Returned None
             (errors.Wrapf (Some (of_foreign e))
                           ("waiting for block " +:+ pretty height)))
  | BlockWaited None txs :: rest =>
      do _ <~ call (CallGetTxs (tx_Hash tx)) ;;
      match txs with
      | Err e =>
          ret (Returned None
                 (errors.Wrap (Some (of_foreign e)) "getting pool/bc txs"))
      | Ok (poolTxs, bcTxs) =>
          if decide (is_Some (bcTxs !! tx_Hash tx)) then
            ret (Returned (Some tx) None)
          else if decide (poolTxs !! tx_Hash tx = None) then
            ret (Returned None (Some (errors.New ErrRejected)))
          else wait_loop tx height rest
      end
  end.

(** Lines 64-116. *)
Definition FinalizeTxWait (env : Env) (txTemplate : Template) : M outcome :=
  do _ <~ call CallLatestBlock ;;
  match fc_LatestBlock env with
  | Err e =>
      ret (Returned None
             (errors.Wrap (Some (of_foreign e)) "getting latest block"))
  | Ok b =>
      let height := match b with Some b => Height b | None => 0 end in
      do r <~ FinalizeTx env txTemplate ;;
      match r with
      | (_, Some e) => ret (Returned None (Some e))
      | (Some tx, None) => wait_loop tx height (select_events env)
      | (None, None) => ret Panicked
      end
  end.

(** ** The select of lines 85-89 *)

(** What is ready when the select is entered: [ctx.Done()] is closed and
    [ctx.Err()] is the given error, and the channel of [waitBlock] holds
    the result of [WaitForBlock] (after which [GetTxs] answers as given);
    either, both or neither. *)
Record select_ready : Type := mkReady {
  ready_ctx : option ctx_error;
  ready_block :
    option (option foreign_error * result (gmap string Tx * gmap string Tx))
}.

(** With both cases ready Go takes one of them by a pseudo-random
    choice. *)
Inductive pick : Type := PickDone | PickBlock.

(** The case the select takes; [None] when nothing is ready and the
    select blocks. *)
Definition select_takes (s : select_ready) (p : pick) : option select_event :=
  match ready_ctx s, ready_block s with
  | Some c, None => Some (CtxDone c)
  | None, Some (werr, txs) => Some (BlockWaited werr txs)
  | Some c, Some (werr, txs) =>
      Some match p with
           | PickDone => CtxDone c
           | PickBlock => BlockWaited werr txs
           end
  | None, None => None
  end.

(** The events a run of selects delivers to the loop, up to the first
    select that blocks. *)
Fixpoint events_of (run : list (select_ready * pick)) : list select_event :=
  match run with
  | [] => []
  | (s, p) :: rest =>
      match select_takes s p with
      | Some ev => ev :: events_of rest
      | None => []
      end
  end.

(** * The account-output resolver and the pool callback *)

(** ** The address registry *)

#[global] Instance byte_eq_dec : EqDecision Byte.byte := Byte.byte_eq_dec.

(** One row of the [addresses] relation as the query of lines 302-306
    selects it; [addr_key_index] is the array [key_index(key_index)]. *)
Record address_row : Type := mkAddress {
  pk_script : bytes;
  addr_manager_node_id : string;
  addr_account_id : string;
  addr_key_index : list Z           (* []uint32 *)
}.

(** What [rows.Next]/[rows.Scan] deliver, row by row, and [rows.Err]. *)
Inductive fetch : Type :=
  | Fetched (a : address_row)
  | ScanFailed (e : foreign_error).

Record Rows : Type := mkRows {
  rows_fetched : list fetch;
  rows_Err : option foreign_error
}.

(** The relation together with the failures of the next cursor over it:
    of [rows.Scan] on the n-th row, and of the cursor itself after n
    rows. *)
Record Registry : Type := mkRegistry {
  addresses : list address_row;
  scan_faults : list (option foreign_error);
  cursor_fault : option (nat * foreign_error)
}.

(** [SELECT pk_script, manager_node_id, account_id, key_index(key_index)
    FROM addresses WHERE pk_script IN (SELECT unnest($1::bytea[]))], in
    the order of the relation. *)
Definition sql_select_addresses (reg : Registry) (scripts : list bytes)
  : Rows :=
  let selected := filter (fun a => pk_script a ∈ scripts) (addresses reg) in
  let scanned :=
    imap (fun i a => match default None (scan_faults reg !! i) with
                     | Some e => ScanFailed e
                     | None => Fetched a
                     end) selected in
  match cursor_fault reg with
  | Some (n, e) => {| rows_fetched := take n scanned; rows_Err := Some e |}
  | None => {| rows_fetched := scanned; rows_Err := None |}
  end.

(** Modelled from the spec: [pg.Query] is not under src/; it fails when
    the session does and otherwise opens the cursor. *)
Definition pg_Query (reg : Registry) (scripts : list bytes)
  : M (result Rows) :=
  fun w =>
    match db_faults w with
    | Some e :: rest => (Err e, set_db_faults rest w)
    | _ => (Ok (sql_select_addresses reg scripts),
            set_db_faults (tail (db_faults w)) w)
    end.

(** ** loadAccountInfo (lines 289-335) *)

(** The outputs are passed by pointer.  The objects are given as a list
    and a pointer is a position in it; the pointers handed in are to
    distinct objects, as [addAccountData] allocates them (line 198). *)

(** [string(out.Script)], the key of the Go map. *)
Definition script_key (s : bytes) : string := String.string_of_list_byte s.

(** Lines 297-300: [outsByScript], filled from position [start] on. *)
Fixpoint group_by_script (start : nat) (outs : list Output)
    (m : gmap string (list nat)) : gmap string (list nat) :=
  match outs with
  | [] => m
  | out :: rest =>
      let k := script_key (Script (out_TxOutput out)) in
      group_by_script (S start) rest
                      (<[k := default [] (m !! k) ++ [start]]> m)
  end.

Definition outsByScript (outs : list Output) : gmap string (list nat) :=
  group_by_script 0 outs ∅.

(** [copy(out.AddrIndex[:], addrIndex)] copies as many elements as the
    shorter of the two has. *)
Definition copy_AddrIndex (dst : Z * Z) (src : list Z) : Z * Z :=
  match src with
  | [] => dst
  | [x] => (x, dst.2)
  | x :: y :: _ => (x, y)
  end.

(** Lines 325-327. *)
Definition set_account_info (a : address_row) (out : Output) : Output :=
  {| out_TxOutput := out_TxOutput out;
     out_Outpoint := out_Outpoint out;
     ManagerNodeID := addr_manager_node_id a;
     AccountID := addr_account_id a;
     AddrIndex := copy_AddrIndex (AddrIndex out) (addr_key_index a) |}.

(** Lines 324-329, for one scanned row: the state is the objects and the
    pointers appended to [addrOuts] so far. *)
Definition resolve_row (byScript : gmap string (list nat)) (a : address_row)
    (st : list Output * list nat) : list Output * list nat :=
  foldl (fun st p => (alter (set_account_info a) p st.1, st.2 ++ [p]))
        st (default [] (byScript !! script_key (pk_script a))).

(** Lines 314-330. *)
Fixpoint scan_rows (byScript : gmap string (list nat)) (rows : list fetch)
    (st : list Output * list nat) : (list Output * list nat) * option error :=
  match rows with
  | [] => (st, None)
  | ScanFailed e :: _ =>
      (st, errors.Wrap (Some (of_foreign e)) "addresses row scan")
  | Fetched a :: rest => scan_rows byScript rest (resolve_row byScript a st)
  end.

(** The result is the objects as the call leaves them, the returned slice
    of pointers and the error. *)
Definition loadAccountInfo (reg : Registry) (outs : list Output)
  : M (list Output * list nat * option error) :=
  let scripts := (fun out => Script (out_TxOutput out)) <$> outs in
  let byScript := outsByScript outs in
  do q <~ pg_Query reg scripts ;;
  match q with
  | Err e =>
      ret (outs, [], errors.Wrap (Some (of_foreign e)) "addresses select query")
  | Ok rows =>
      let r := scan_rows byScript (rows_fetched rows) (outs, []) in
      if decide (r.2 <> None) then ret (r.1.1, [], r.2)
      else
        match rows_Err rows with
        | Some e =>
            ret (r.1.1, [],
                 errors.Wrap (Some (of_foreign e)) "addresses end row scan loop")
        | None => ret (r.1.1, r.1.2, None)
        end
  end.

(** ** addAccountData (lines 185-214) *)

Definition wrap_u32 (z : Z) : Z := z mod 2 ^ 32.

(** Lines 196-205: one fresh [txdb.Output] per output of the
    transaction; the fields not named are zero values. *)
Definition outputs_of (tx : Tx) : list Output :=
  imap (fun i out =>
          {| out_TxOutput := out;
             out_Outpoint := {| op_Hash := tx_Hash tx;
                                op_Index := wrap_u32 (Z.of_nat i) |};
             ManagerNodeID := EmptyString;
             AccountID := EmptyString;
             AddrIndex := (0, 0) |})
       (Outputs (tx_data tx)).

(** The objects a slice of pointers refers to. *)
Definition deref (objs : list Output) (ptrs : list nat) : list Output :=
  omap (fun p => objs !! p) ptrs.

Definition addAccountData (reg : Registry) (tx : Tx) : M (option error) :=
  do err <~ markPrevSpentInPool true [tx] ;;
  if decide (err <> None) then ret (errors.Wrap err EmptyString)
  else
    do r <~ loadAccountInfo reg (outputs_of tx) ;;
    if decide (r.2 <> None) then
      ret (errors.Wrap r.2 "loading account info from addresses")
    else
      do err <~ insertAccountOutputs (deref r.1.1 r.1.2) ;;
      ret (errors.Wrap err "updating pool outputs").

(** * Vocabulary of the statements, and sample runs *)

(** The key of an outpoint in the store: the text of its transaction hash
    and its output index (lines 252-253). *)
Definition outpoint_key (op : Outpoint) : string * Z :=
  (Hash_String (op_Hash op), op_Index op).

(** The number of rows stored under a key. *)
Definition rows_with_key (k : string * Z) (tbl : list utxo_row) : nat :=
  length (filter (fun r => row_key r = k) tbl).

(** An output of this node at the given outpoint, an empty store, a row
    already marked as spent in the pool, and a transaction spending it. *)
Definition sample_out (h : string) (i : Z) : Output :=
  {| out_TxOutput := {| AssetID := "a55e7"; Amount := 10;
                        Script := []; Metadata := [] |};
     out_Outpoint := {| op_Hash := h; op_Index := i |};
     ManagerNodeID := "mn0"; AccountID := "acc0"; AddrIndex := (0, 1) |}.

Definition empty_world : World :=
  {| account_utxos := []; db_faults := []; pool := []; trace := [];
     log := [] |}.

Definition spent_row : utxo_row :=
  set_spent_in_pool true (proposed_row (sample_out "aa" 0)).

Definition spender : Tx :=
  {| tx_data := {| Inputs := [ {| Previous := {| op_Hash := "aa";
                                                 op_Index := 0 |};
                                  in_issuance := false |} ];
                   Outputs := [] |};
     tx_Hash := "cc" |}.

(** The outcome of the n-th next [pg.Exec]: the failure of the session
    there, if any. *)
Definition fault_at (w : World) (n : nat) : option error :=
  of_foreign <$> default None (db_faults w !! n).

(** The entries [addBlock] writes for the failures of its two updates. *)
Definition logged_errors (b : Block) (f1 f2 : option error) : list log_entry :=
  match f1 with
  | Some e => [[("at", LogString "account utxos indexing block");
                ("block", LogNumber (Height b));
                ("error", LogError (Some e))]]
  | None => []
  end ++
  match f2 with
  | Some e => [[("block", LogNumber (Height b)); ("error", LogError (Some e))]]
  | None => []
  end.

(** An environment to run the pipeline in: the engine, the generator and
    the select of the wait loop answer as given. *)
Definition sample_env (generator : option string)
    (addtx submit : option foreign_error)
    (latest : result (option Block)) (events : list select_event) : Env :=
  {| Generator := generator;
     AssembleSignatures :=
       fun t => Ok {| tx_data := Unsigned t; tx_Hash := "cc" |};
     MarshalText := fun _ => Ok "0fc0de";
     fc_LatestBlock := latest;
     fc_AddTx := fun _ => addtx;
     rpcclient_Submit := fun _ => submit;
     select_events := events |}.

(** A template over the one input of [spender] with [sigs] signature
    entries. *)
Definition sample_template (sigs : nat) : Template :=
  {| Unsigned := tx_data spender;
     tpl_Inputs := replicate sigs {| sig_components := [] |} |}.

(** Failures of the engine's validation and of the generator. *)
Definition engine_says_invalid : foreign_error :=
  {| f_root := validation_ErrBadTx;
     f_msg := "unbalanced inputs and outputs: invalid transaction";
     f_detail := ["unbalanced inputs and outputs"] |}.

Definition relay_down : foreign_error :=
  foreign_New (Other "connection refused").

(** A landed block that decides nothing: the transaction is not in the
    chain and still in the pool. *)
Definition in_pool_only (h : Hash) (ev : select_event) : bool :=
  match ev with
  | BlockWaited None (Ok (poolTxs, bcTxs)) =>
      bool_decide (bcTxs !! h = None) && bool_decide (is_Some (poolTxs !! h))
  | _ => false
  end.

(** The calls of n iterations that run to their end, from [height]. *)
Fixpoint polls (h : Hash) (height : Z) (n : nat) : list Call :=
  match n with
  | O => []
  | S n' =>
      let height := u64_succ height in
      CallWaitForBlock height :: CallGetTxs h :: polls h height n'
  end.

(** The heights waited for, in the order of the calls. *)
Definition awaited (calls : list Call) : list Z :=
  omap (fun c => match c with
                 | CallWaitForBlock height => Some height
                 | _ => None
                 end) calls.

(** The world after the given calls have been made. *)
Definition record (calls : list Call) (w : World) : World :=
  set_trace (trace w ++ calls) w.

(** A run: the chain is at height 7, the transaction is accepted, the
    block at height 8 leaves it in the pool. *)
Definition block7 : Block := {| Height := 7; Transactions := [] |}.

Definition still_in_pool : select_event :=
  BlockWaited None (Ok ({[ "cc" := spender ]}, ∅)).

Definition now_in_chain : select_event :=
  BlockWaited None (Ok (∅, {[ "cc" := spender ]})).

Definition submitted : World :=
  {| account_utxos := []; db_faults := []; pool := [spender];
     trace := [CallLatestBlock; CallAssembleSignatures (sample_template 1);
               CallAddTx spender];
     log := [] |}.

(** A transaction that issues and spends nothing. *)
Definition issuer : Tx :=
  {| tx_data := {| Inputs := [ {| Previous := {| op_Hash := "aa";
                                                 op_Index := 0 |};
                                  in_issuance := true |} ];
                   Outputs := [] |};
     tx_Hash := "dd" |}.

(** The columns of a row that are written once, when it is inserted. *)
Definition row_payload (r : utxo_row)
  : string * Z * string * Z * string * string * Z * bytes * bytes :=
  (tx_hash r, index r, asset_id r, amount r, manager_node_id r,
   account_id r, addr_index r, script r, metadata r).

(** A block at height 8 holding [spender] at position 1, after
    [issuer]. *)
Definition block8 : Block :=
  {| Height := 8; Transactions := [issuer; spender] |}.

(** A row of an output of [spender]. *)
Definition spender_row : utxo_row := proposed_row (sample_out "cc" 0).

(** The positions, from [start] on, of the outputs with a given script
    key. *)
Fixpoint matching (start : nat) (outs : list Output) (k : string)
  : list nat :=
  match outs with
  | [] => []
  | out :: rest =>
      (if decide (script_key (Script (out_TxOutput out)) = k)
       then [start] else []) ++ matching (S start) rest k
  end.

(** What the resolver must not change in an output. *)
Definition output_ident (o : Output) : TxOutput * Outpoint :=
  (out_TxOutput o, out_Outpoint o).

(** A registry of two addresses and a transaction paying to the first,
    to an unknown script, to the first again and to the second. *)
Definition script1 : bytes := [Byte.x01].
Definition script2 : bytes := [Byte.x02].
Definition script3 : bytes := [Byte.x03].

Definition registry2 : Registry :=
  {| addresses :=
       [ {| pk_script := script1; addr_manager_node_id := "mn1";
            addr_account_id := "acc1"; addr_key_index := [0; 1] |};
         {| pk_script := script2; addr_manager_node_id := "mn2";
            addr_account_id := "acc2"; addr_key_index := [0; 2] |} ];
     scan_faults := [];
     cursor_fault := None |}.

Definition payer : Tx :=
  {| tx_data :=
       {| Inputs := [ {| Previous := {| op_Hash := "aa"; op_Index := 0 |};
                         in_issuance := false |} ];
          Outputs :=
            [ {| AssetID := "a55e7"; Amount := 1; Script := script1;
                 Metadata := [] |};
              {| AssetID := "a55e7"; Amount := 2; Script := script3;
                 Metadata := [] |};
              {| AssetID := "a55e7"; Amount := 3; Script := script1;
                 Metadata := [] |};
              {| AssetID := "a55e7"; Amount := 4; Script := script2;
                 Metadata := [] |} ] |};
     tx_Hash := "ee" |}.

(** The account a scanned row gives to the object at position [p]. *)
Definition resolved_by (m : gmap string (list nat)) (a : address_row)
    (p : nat) (o : Output) : Output :=
  if decide (p ∈ default [] (m !! script_key (pk_script a)))
  then set_account_info a o else o.

(** The objects and the pointers after the rows selected for [outs] have
    all been scanned. *)
Definition resolved (reg : Registry) (outs : list Output)
  : list Output * list nat :=
  foldl (fun st a => resolve_row (outsByScript outs) a st) (outs, [])
        (filter (fun a => pk_script a
                          ∈ (fun out => Script (out_TxOutput out)) <$> outs)
                (addresses reg)).

(** The third output of [payer], as [addAccountData] allocates it. *)
Definition payer_out2 : Output :=
  {| out_TxOutput := {| AssetID := "a55e7"; Amount := 3; Script := script1;
                        Metadata := [] |};
     out_Outpoint := {| op_Hash := "ee"; op_Index := 2 |};
     ManagerNodeID := EmptyString; AccountID := EmptyString;
     AddrIndex := (0, 0) |}.

(** An environment in which signature assembly fails. *)
Definition assembly_fails : foreign_error :=
  foreign_New (Other "missing signature").

Definition sample_env_no_assembly : Env :=
  {| Generator := None;
     AssembleSignatures := fun _ => Err assembly_fails;
     MarshalText := fun _ => Ok "0fc0de";
     fc_LatestBlock := Ok None;
     fc_AddTx := fun _ => None;
     rpcclient_Submit := fun _ => None;
     select_events := [] |}.

(** The engine failure a select event carries, if any: of
    [WaitForBlock], or of [GetTxs] after a block has landed. *)
Definition engine_failure (ev : select_event) : option foreign_error :=
  match ev with
  | BlockWaited (Some e) _ => Some e
  | BlockWaited None (Err e) => Some e
  | _ => None
  end.

(** A select entered before the context has completed that takes a
    landed block which decides nothing. *)
Definition undecided (h : Hash) (sp : select_ready * pick) : bool :=
  match ready_ctx sp.1, select_takes sp.1 sp.2 with
  | None, Some ev => in_pool_only h ev
  | _, _ => false
  end.

(** Selects of a run of [spender]: a block that leaves it in the pool,
    the deadline alone, and the deadline together with a block after
    which it is in neither pool nor chain. *)
Definition pool_block_ready : select_ready :=
  {| ready_ctx := None;
     ready_block := Some (None, Ok ({[ "cc" := spender ]}, ∅)) |}.

Definition deadline_only : select_ready :=
  {| ready_ctx := Some CtxDeadlineExceeded; ready_block := None |}.

Definition deadline_and_lost_block : select_ready :=
  {| ready_ctx := Some CtxDeadlineExceeded;
     ready_block := Some (None, Ok (∅, ∅)) |}.

(** * Properties *)

(** ** Machine integers *)

Lemma wrap_i64_small (z : Z) : - 2 ^ 63 <= z < 2 ^ 63 -> wrap_i64 z = z.
Proof. intros H. unfold wrap_i64. rewrite Z.mod_small; lia. Qed.

Lemma land_shiftl_low (a b n : Z) :
  0 <= n -> 0 <= b < 2 ^ n -> Z.land (Z.shiftl a n) b = 0.
Proof.
  intros Hn Hb. apply Z.bits_inj'. intros m Hm.
  rewrite Z.land_spec, Z.bits_0, Z.shiftl_spec by exact Hm.
  destruct (Z.lt_ge_cases m n) as [Hlt | Hge].
  - rewrite Z.testbit_neg_r by lia. reflexivity.
  - rewrite <- (Z.mod_small b (2 ^ n)) by exact Hb.
    rewrite Z.mod_pow2_bits_high by lia. apply andb_false_r.
Qed.

Lemma lor_shiftl_low (a b n : Z) :
  0 <= n -> 0 <= b < 2 ^ n -> Z.lor (Z.shiftl a n) b = a * 2 ^ n + b.
Proof.
  intros Hn Hb.
  pose proof (land_shiftl_low a b n Hn Hb) as Hland.
  rewrite <- Z.lxor_lor by exact Hland.
  rewrite <- Z.add_nocarry_lxor by exact Hland.
  rewrite Z.shiftl_mul_pow2 by exact Hn. reflexivity.
Qed.

(** The value [toKeyIndex] computes on a two-element slice of [uint32]s. *)
Lemma toKeyIndex_value (high low : Z) :
  is_u32 high -> is_u32 low ->
  toKeyIndex [high; low] = Some (high * 2 ^ 31 + low mod 2 ^ 31).
Proof.
  unfold is_u32. intros Hh Hl. unfold toKeyIndex. cbn [lookup list_lookup].
  assert (Hm : 0 <= low mod 2 ^ 31 < 2 ^ 31) by (apply Z.mod_pos_bound; lia).
  change 0x7fffffff with (Z.ones 31).
  rewrite Z.land_ones by lia.
  rewrite (wrap_i64_small high) by lia.
  rewrite (wrap_i64_small (Z.shiftl high 31))
    by (rewrite Z.shiftl_mul_pow2; lia).
  rewrite (wrap_i64_small (low mod 2 ^ 31)) by lia.
  rewrite lor_shiftl_low by lia. reflexivity.
Qed.

(** C9, as the spec words it, fails: the high component is shifted by 31
    bits, not 32, so the pair (1, 0) packs to 2^31. *)
Lemma toKeyIndex_not_shift32 :
  ~ (forall high low : Z, is_u32 high -> is_u32 low ->
       toKeyIndex [high; low] = Some (high * 2 ^ 32 + low mod 2 ^ 31)).
Proof.
  intros H. specialize (H 1 0).
  assert (Hu1 : is_u32 1) by (unfold is_u32; lia).
  assert (Hu0 : is_u32 0) by (unfold is_u32; lia).
  specialize (H Hu1 Hu0). vm_compute in H. discriminate H.
Qed.

(** C9, amended: for every pair of 32-bit components, [toKeyIndex] returns
    high * 2^31 + (low mod 2^31), a non-negative integer below 2^63: bit n
    of the result is bit n of the low component for n < 31 and bit n - 31
    of the high component for n >= 31 (the high component sits in bits
    31-62, the low one is masked to bits 0-30). *)
Theorem toKeyIndex_layout (high low : Z) :
  is_u32 high -> is_u32 low ->
  exists k : Z,
    toKeyIndex [high; low] = Some k /\
    k = high * 2 ^ 31 + low mod 2 ^ 31 /\
    0 <= k < 2 ^ 63 /\
    (forall n : Z, 0 <= n ->
       Z.testbit k n =
         if (n <? 31)%Z then Z.testbit low n else Z.testbit high (n - 31)).
Proof.
  intros Hh Hl. exists (high * 2 ^ 31 + low mod 2 ^ 31).
  split; [apply toKeyIndex_value; assumption |].
  split; [reflexivity |].
  unfold is_u32 in *.
  assert (Hm : 0 <= low mod 2 ^ 31 < 2 ^ 31) by (apply Z.mod_pos_bound; lia).
  split; [lia |].
  intros n Hn.
  rewrite <- lor_shiftl_low by lia.
  rewrite Z.lor_spec, Z.shiftl_spec by exact Hn.
  destruct (Z.ltb_spec n 31) as [Hlt | Hge].
  - rewrite Z.testbit_neg_r by lia.
    rewrite Z.mod_pow2_bits_low by lia. reflexivity.
  - rewrite Z.mod_pow2_bits_high by lia. apply orb_false_r.
Qed.

Lemma toKeyIndex_layout_witness :
  is_u32 3 /\ is_u32 (2 ^ 31 + 5) /\
  exists k : Z,
    toKeyIndex [3; 2 ^ 31 + 5] = Some k /\
    k = 3 * 2 ^ 31 + (2 ^ 31 + 5) mod 2 ^ 31 /\
    0 <= k < 2 ^ 63 /\
    (forall n : Z, 0 <= n ->
       Z.testbit k n =
         if (n <? 31)%Z then Z.testbit (2 ^ 31 + 5) n else Z.testbit 3 (n - 31)).
Proof.
  assert (H3 : is_u32 3) by (unfold is_u32; lia).
  assert (H5 : is_u32 (2 ^ 31 + 5)) by (unfold is_u32; lia).
  split; [exact H3 |]. split; [exact H5 |].
  exact (toKeyIndex_layout 3 (2 ^ 31 + 5) H3 H5).
Defined.

(** ** The UTXO materializer *)

Section Materializer.

Implicit Types (tbl proposed added : list utxo_row) (k : string * Z).

Lemma rows_with_key_absent k tbl :
  k ∉ row_key <$> tbl -> rows_with_key k tbl = 0%nat.
Proof.
  unfold rows_with_key. induction tbl as [| r tbl IH]; intros Hk.
  - reflexivity.
  - rewrite fmap_cons, not_elem_of_cons in Hk. destruct Hk as [Hne Hk].
    rewrite filter_cons_False by congruence. apply IH, Hk.
Qed.

Lemma rows_with_key_unique k tbl :
  NoDup (row_key <$> tbl) -> k ∈ row_key <$> tbl ->
  rows_with_key k tbl = 1%nat.
Proof.
  unfold rows_with_key. induction tbl as [| r tbl IH]; intros Hnd Hk.
  - rewrite fmap_nil in Hk. inversion Hk.
  - rewrite fmap_cons in Hnd, Hk.
    apply NoDup_cons in Hnd as [Hnotin Hnd].
    destruct (decide (row_key r = k)) as [Heq | Hne].
    + rewrite filter_cons_True by exact Heq. cbn [length]. f_equal.
      apply rows_with_key_absent. rewrite <- Heq. exact Hnotin.
    + rewrite filter_cons_False by exact Hne.
      apply elem_of_cons in Hk as [Hk | Hk]; [congruence |].
      apply IH; assumption.
Qed.

(** With [DO NOTHING] the statement never raises: it appends the rows
    whose key is new, keeps the keys unique and leaves every proposed
    key present. *)
Lemma sql_insert_DoNothing_appends proposed :
  forall tbl,
    NoDup (row_key <$> tbl) ->
    exists added,
      sql_insert DoNothing proposed tbl = Ok (tbl ++ added) /\
      NoDup (row_key <$> tbl ++ added) /\
      (forall r, r ∈ proposed -> row_key r ∈ row_key <$> tbl ++ added).
Proof.
  induction proposed as [| r rest IH]; intros tbl Hnd; cbn [sql_insert].
  - exists []. rewrite app_nil_r. split; [reflexivity |].
    split; [exact Hnd |]. intros r Hr. inversion Hr.
  - destruct (decide (row_key r ∈ row_key <$> tbl)) as [Hin | Hout].
    + destruct (IH tbl Hnd) as (added & Heq & Hnd' & Hkeys).
      exists added. split; [exact Heq |]. split; [exact Hnd' |].
      intros r' Hr'. apply elem_of_cons in Hr' as [-> | Hr'].
      * rewrite fmap_app. apply elem_of_app. left. exact Hin.
      * apply Hkeys, Hr'.
    + assert (Hnd1 : NoDup (row_key <$> tbl ++ [r])).
      { rewrite fmap_app. apply NoDup_app. split; [exact Hnd |].
        split; [| apply NoDup_singleton].
        intros k Hk Hk'. apply list_elem_of_singleton in Hk'.
        subst k. contradiction. }
      destruct (IH (tbl ++ [r]) Hnd1) as (added & Heq & Hnd' & Hkeys).
      exists (r :: added). rewrite <- app_assoc in Heq, Hnd', Hkeys.
      split; [exact Heq |]. split; [exact Hnd' |].
      intros r' Hr'. apply elem_of_cons in Hr' as [-> | Hr'].
      * apply list_elem_of_fmap_2, elem_of_app. right. apply elem_of_cons.
        left. reflexivity.
      * apply Hkeys, Hr'.
Qed.

(** When every proposed key is already stored, nothing is inserted. *)
Lemma sql_insert_DoNothing_present proposed tbl :
  (forall r, r ∈ proposed -> row_key r ∈ row_key <$> tbl) ->
  sql_insert DoNothing proposed tbl = Ok tbl.
Proof.
  induction proposed as [| r rest IH]; intros Hkeys; cbn [sql_insert].
  - reflexivity.
  - rewrite decide_True by (apply Hkeys, elem_of_cons; left; reflexivity).
    apply IH. intros r' Hr'. apply Hkeys, elem_of_cons. right. exact Hr'.
Qed.

(** Without the clause the same statement does raise on a stored key. *)
Lemma sql_insert_NoConflictClause_raises r proposed tbl :
  row_key r ∈ row_key <$> tbl ->
  sql_insert NoConflictClause (r :: proposed) tbl = Err unique_violation.
Proof. intros Hin. cbn [sql_insert]. rewrite decide_True by exact Hin. reflexivity. Qed.

(** What [DO NOTHING] inserts: rows of the proposal under keys that were
    not stored, and of several proposed rows with one such key the first. *)
Lemma sql_insert_DoNothing_added (proposed : list utxo_row) :
  forall tbl : list utxo_row,
    exists added : list utxo_row,
      sql_insert DoNothing proposed tbl = Ok (tbl ++ added) /\
      (forall r, r ∈ added -> r ∈ proposed /\ row_key r ∉ row_key <$> tbl) /\
      (forall (i : nat) r,
         proposed !! i = Some r ->
         row_key r ∉ row_key <$> tbl ->
         (forall (j : nat) r', (j < i)%nat -> proposed !! j = Some r' ->
            row_key r' <> row_key r) ->
         r ∈ added).
Proof.
  induction proposed as [| r0 rest IH]; intros tbl; cbn [sql_insert].
  - exists []. rewrite app_nil_r. split; [reflexivity |]. split.
    + intros r Hr. inversion Hr.
    + intros i r Hi. rewrite lookup_nil in Hi. discriminate Hi.
  - destruct (decide (row_key r0 ∈ row_key <$> tbl)) as [Hin | Hout].
    + destruct (IH tbl) as (added & Heq & Hfrom & Hfirst).
      exists added. split; [exact Heq |]. split.
      * intros r Hr. destruct (Hfrom r Hr) as [Hprop Hnew].
        split; [apply elem_of_cons; right; exact Hprop | exact Hnew].
      * intros [| i] r Hi Hnew Hearlier.
        { cbn in Hi. injection Hi as <-. contradiction. }
        apply (Hfirst i r Hi Hnew).
        intros j r' Hj Hr'. apply (Hearlier (S j) r'); [lia | exact Hr'].
    + destruct (IH (tbl ++ [r0])) as (added & Heq & Hfrom & Hfirst).
      exists (r0 :: added). rewrite <- app_assoc in Heq.
      split; [exact Heq |]. split.
      * intros r Hr. apply elem_of_cons in Hr as [-> | Hr].
        { split; [apply elem_of_cons; left; reflexivity | exact Hout]. }
        destruct (Hfrom r Hr) as [Hprop Hnew].
        split; [apply elem_of_cons; right; exact Hprop |].
        intros Hk. apply Hnew. rewrite fmap_app. apply elem_of_app.
        left. exact Hk.
      * intros [| i] r Hi Hnew Hearlier.
        { cbn in Hi. injection Hi as <-. apply elem_of_cons. left. reflexivity. }
        apply elem_of_cons. right. apply (Hfirst i r Hi).
        { rewrite fmap_app. intros Hk. apply elem_of_app in Hk as [Hk | Hk].
          - contradiction.
          - apply list_elem_of_singleton in Hk.
            apply (Hearlier 0%nat r0); [lia | reflexivity | congruence]. }
        intros j r' Hj Hr'. apply (Hearlier (S j) r'); [lia | exact Hr'].
Qed.

End Materializer.

(** C1: on a store whose keys are unique and a healthy session, inserting
    a list of outputs returns no error and appends to the stored rows
    without touching them.  Afterwards the keys stored are those stored
    before and the (transaction hash, output index) of the outpoints of
    the listed outputs, no others, and each of them has exactly one row,
    whether the outpoint was stored before or occurs twice in the list;
    inserting the same list again returns no error and changes nothing. *)
Theorem insertAccountOutputs_idempotent (outs : list Output) (w : World) :
  NoDup (row_key <$> account_utxos w) ->
  db_faults w = [] ->
  let r1 := insertAccountOutputs outs w in
  let r2 := insertAccountOutputs outs r1.2 in
  r1.1 = None /\
  (exists added, account_utxos r1.2 = account_utxos w ++ added) /\
  NoDup (row_key <$> account_utxos r1.2) /\
  (forall k : string * Z,
     k ∈ row_key <$> account_utxos r1.2 <->
     k ∈ row_key <$> account_utxos w \/
     exists o, o ∈ outs /\ k = outpoint_key (out_Outpoint o)) /\
  (forall o, o ∈ outs ->
     rows_with_key (outpoint_key (out_Outpoint o)) (account_utxos r1.2)
     = 1%nat) /\
  (forall k : string * Z,
     k ∈ row_key <$> account_utxos w ->
     rows_with_key k (account_utxos r1.2) = 1%nat) /\
  r2.1 = None /\
  r2.2 = r1.2.
Proof.
  intros Hnd Hfaults.
  destruct (sql_insert_DoNothing_appends (proposed_row <$> outs)
              (account_utxos w) Hnd) as (added & Heq & Hnd' & Hkeys).
  destruct (sql_insert_DoNothing_added (proposed_row <$> outs)
              (account_utxos w)) as (added' & Heq' & Hfrom & _).
  rewrite Heq in Heq'. injection Heq' as Heq'. apply app_inv_head in Heq'.
  subst added'.
  assert (Hpresent : forall r, r ∈ proposed_row <$> outs ->
            row_key r ∈ row_key <$> account_utxos w ++ added) by exact Hkeys.
  pose proof (sql_insert_DoNothing_present _ _ Hpresent) as Hagain.
  assert (Hout : forall o, o ∈ outs ->
            outpoint_key (out_Outpoint o)
            ∈ row_key <$> account_utxos w ++ added).
  { intros o Ho. apply (Hkeys (proposed_row o)), list_elem_of_fmap_2, Ho. }
  unfold insertAccountOutputs, bind, ret, pg_Exec. cbn zeta.
  rewrite Hfaults, Heq. cbn.
  rewrite Hagain. cbn.
  split; [reflexivity |].
  split; [exists added; reflexivity |].
  split; [exact Hnd' |].
  split.
  { intros k. split.
    - rewrite fmap_app. intros Hk. apply elem_of_app in Hk as [Hk | Hk].
      + left. exact Hk.
      + right. apply list_elem_of_fmap in Hk as (r & -> & Hr).
        destruct (Hfrom r Hr) as [Hprop _].
        apply list_elem_of_fmap in Hprop as (o & -> & Ho).
        exists o. split; [exact Ho | reflexivity].
    - intros [Hk | (o & Ho & ->)].
      + rewrite fmap_app. apply elem_of_app. left. exact Hk.
      + apply Hout, Ho. }
  split.
  { intros o Ho. apply rows_with_key_unique; [exact Hnd' |].
    apply Hout, Ho. }
  split; [| split; reflexivity].
  intros k Hk. apply rows_with_key_unique; [exact Hnd' |].
  rewrite fmap_app. apply elem_of_app. left. exact Hk.
Qed.

Lemma insertAccountOutputs_idempotent_witness :
  let outs := [sample_out "aa" 0; sample_out "bb" 1; sample_out "bb" 1;
               sample_out "bb" 2] in
  let w := set_account_utxos [proposed_row (sample_out "aa" 0)] empty_world in
  NoDup (row_key <$> account_utxos w) /\
  db_faults w = [] /\
  let r1 := insertAccountOutputs outs w in
  let r2 := insertAccountOutputs outs r1.2 in
  r1.1 = None /\
  (exists added, account_utxos r1.2 = account_utxos w ++ added) /\
  NoDup (row_key <$> account_utxos r1.2) /\
  (forall k : string * Z,
     k ∈ row_key <$> account_utxos r1.2 <->
     k ∈ row_key <$> account_utxos w \/
     exists o, o ∈ outs /\ k = outpoint_key (out_Outpoint o)) /\
  (forall o, o ∈ outs ->
     rows_with_key (outpoint_key (out_Outpoint o)) (account_utxos r1.2)
     = 1%nat) /\
  (forall k : string * Z,
     k ∈ row_key <$> account_utxos w ->
     rows_with_key k (account_utxos r1.2) = 1%nat) /\
  r2.1 = None /\
  r2.2 = r1.2.
Proof.
  intros outs w.
  assert (Hnd : NoDup (row_key <$> account_utxos w)) by apply NoDup_singleton.
  split; [exact Hnd |]. split; [reflexivity |].
  exact (insertAccountOutputs_idempotent outs w Hnd eq_refl).
Defined.

(** ** The spend-mark indexer *)

Lemma row_key_set_spent_in_pool (v : bool) (r : utxo_row) :
  row_key (set_spent_in_pool v r) = row_key r.
Proof. reflexivity. Qed.

Lemma set_spent_in_pool_same (r : utxo_row) :
  set_spent_in_pool (spent_in_pool r) r = r.
Proof. destruct r. reflexivity. Qed.

Lemma mark_rows_lookup (spent : bool) (keys : list (string * Z))
    (tbl : list utxo_row) (i : nat) :
  mark_rows spent keys tbl !! i =
    (fun r => if decide (row_key r ∈ keys)
              then set_spent_in_pool spent r else r) <$> tbl !! i.
Proof. unfold mark_rows. apply list_lookup_fmap. Qed.

(** Marking and then clearing writes [false] into every referenced row
    and touches nothing else. *)
Lemma mark_rows_true_false (keys : list (string * Z)) (tbl : list utxo_row) :
  mark_rows false keys (mark_rows true keys tbl) = mark_rows false keys tbl.
Proof.
  unfold mark_rows. rewrite <- list_fmap_compose. apply list_fmap_ext.
  intros i r _. cbn.
  destruct (decide (row_key r ∈ keys)) as [Hin | Hout].
  - rewrite row_key_set_spent_in_pool, decide_True by exact Hin.
    destruct r. reflexivity.
  - rewrite decide_False by exact Hout. reflexivity.
Qed.

(** C7, as the spec words it, fails: a row that was already marked (by
    another pool transaction spending the same output, or by an earlier
    call for the same transaction) is cleared by the round trip. *)
Lemma markPrevSpentInPool_not_round_trip :
  ~ (forall (tx : Tx) (w : World) (i : nat) (r : utxo_row),
       db_faults w = [] ->
       account_utxos w !! i = Some r ->
       row_key r ∈ prevouts [tx] ->
       let w1 := (markPrevSpentInPool true [tx] w).2 in
       let w2 := (markPrevSpentInPool false [tx] w1).2 in
       spent_in_pool <$> account_utxos w2 !! i = Some (spent_in_pool r)).
Proof.
  intros H.
  specialize (H spender (set_account_utxos [spent_row] empty_world) 0%nat
                spent_row eq_refl eq_refl).
  assert (Hin : row_key spent_row ∈ prevouts [spender]).
  { apply list_elem_of_singleton. reflexivity. }
  specialize (H Hin). vm_compute in H. discriminate H.
Qed.

(** C7, amended: when both updates succeed, every row referenced by a
    non-issuance input of tx has its [spent_in_pool] flag false after
    [markPrevSpentInPool(true, [tx])] followed by
    [markPrevSpentInPool(false, [tx])], whatever its value before, so the
    flag is back at its value before the first call exactly when the row
    was not marked before; the row's other columns and all other rows are
    as before. *)
Theorem markPrevSpentInPool_set_then_clear (tx : Tx) (w : World)
    (i : nat) (r : utxo_row) :
  db_faults w = [] ->
  account_utxos w !! i = Some r ->
  let r1 := markPrevSpentInPool true [tx] w in
  let r2 := markPrevSpentInPool false [tx] r1.2 in
  r1.1 = None /\ r2.1 = None /\
  (row_key r ∈ prevouts [tx] ->
     account_utxos r2.2 !! i = Some (set_spent_in_pool false r) /\
     (account_utxos r2.2 !! i = Some r <-> spent_in_pool r = false)) /\
  (row_key r ∉ prevouts [tx] -> account_utxos r2.2 !! i = Some r).
Proof.
  intros Hfaults Hrow.
  unfold markPrevSpentInPool, pg_Exec, sql_set_spent_in_pool.
  rewrite Hfaults. cbn -[mark_rows].
  rewrite mark_rows_true_false, mark_rows_lookup, Hrow. cbn.
  split; [reflexivity |]. split; [reflexivity |]. split.
  - intros Hin. rewrite decide_True by exact Hin.
    split; [reflexivity |]. split.
    + intros Heq. injection Heq as Heq. rewrite <- Heq. reflexivity.
    + intros Hflag. rewrite <- Hflag. f_equal. apply set_spent_in_pool_same.
  - intros Hout. rewrite decide_False by exact Hout. reflexivity.
Qed.

Lemma markPrevSpentInPool_set_then_clear_witness :
  let w := set_account_utxos [spent_row] empty_world in
  db_faults w = [] /\
  account_utxos w !! 0%nat = Some spent_row /\
  let r1 := markPrevSpentInPool true [spender] w in
  let r2 := markPrevSpentInPool false [spender] r1.2 in
  r1.1 = None /\ r2.1 = None /\
  (row_key spent_row ∈ prevouts [spender] ->
     account_utxos r2.2 !! 0%nat = Some (set_spent_in_pool false spent_row) /\
     (account_utxos r2.2 !! 0%nat = Some spent_row <->
        spent_in_pool spent_row = false)) /\
  (row_key spent_row ∉ prevouts [spender] ->
     account_utxos r2.2 !! 0%nat = Some spent_row).
Proof.
  intros w. split; [reflexivity |]. split; [reflexivity |].
  exact (markPrevSpentInPool_set_then_clear spender w 0%nat spent_row
           eq_refl eq_refl).
Defined.

(** ** The block-landing handler *)

Lemma errors_Wrap_no_message (err : option error) :
  errors.Wrap err EmptyString = err.
Proof. destruct err as [e |]; reflexivity. Qed.

(** C8: [addBlock] has no error to return and always completes.  Whether
    the confirmation update fails or not, the spend-mark release of the
    conflicts is still attempted; each of the two updates either takes
    effect or has its error written to the log, and nothing else (pool,
    calls to the engine) is touched. *)
Theorem addBlock_swallows_errors (b : Block) (conflicts : list Tx) (w : World) :
  let f1 := fault_at w 0 in
  let f2 := fault_at w 1 in
  let confirmed :=
    match f1 with
    | Some _ => account_utxos w
    | None => confirm_rows (Height b) (block_positions b) (account_utxos w)
    end in
  let released :=
    match f2 with
    | Some _ => confirmed
    | None => mark_rows false (prevouts conflicts) confirmed
    end in
  addBlock b conflicts w =
    (tt, {| account_utxos := released;
            db_faults := drop 2 (db_faults w);
            pool := pool w;
            trace := trace w;
            log := log w ++ logged_errors b f1 f2 |}).
Proof.
  unfold addBlock, markPrevSpentInPool, bind, ret, pg_Exec, chainlog_Write,
    sql_set_confirmed, sql_set_spent_in_pool, fault_at, logged_errors.
  destruct w as [tbl faults p tr lg]. cbn [db_faults account_utxos pool trace log].
  destruct faults as [| [e1 |] [| [e2 |] rest]];
    cbn -[confirm_rows mark_rows block_positions prevouts];
    rewrite ?app_nil_r, <- ?app_assoc; reflexivity.
Qed.

(** ** The finalize pipeline *)

Lemma err_detail_wrap (e : error) (msg : string) :
  err_detail (errors.wrap e msg) = err_detail e.
Proof. unfold errors.wrap. destruct (decide (msg = EmptyString)); reflexivity. Qed.

Lemma err_root_wrap (e : error) (msg : string) :
  err_root (errors.wrap e msg) = err_root e.
Proof. unfold errors.wrap. destruct (decide (msg = EmptyString)); reflexivity. Qed.

Lemma Root_Wrap (err : option error) (msg : string) :
  errors.Root (errors.Wrap err msg) = errors.Root err.
Proof. destruct err as [e |]; cbn; [rewrite err_root_wrap |]; reflexivity. Qed.

Lemma Root_WithDetail (err : option error) (text : string) :
  errors.Root (errors.WithDetail err text) = errors.Root err.
Proof.
  destruct err as [e |]; [| reflexivity]. unfold errors.WithDetail.
  destruct (decide (text = EmptyString)); cbn; [| rewrite err_root_wrap];
    reflexivity.
Qed.

(** An error without detail strings that is given one carries exactly
    that one. *)
Lemma Detail_WithDetail_fresh (e : error) (text : string) :
  err_detail e = [] ->
  errors.Detail (errors.WithDetail (Some e) text) = text.
Proof.
  intros Hnone. unfold errors.WithDetail, errors.Detail.
  destruct (decide (text = EmptyString)) as [-> | Hne]; cbn.
  - rewrite Hnone. reflexivity.
  - rewrite err_detail_wrap, Hnone. reflexivity.
Qed.

(** C3: a template with more signature entries than unsigned inputs makes
    [FinalizeTx] return no transaction and an error whose root is
    [ErrBadTxTemplate] and whose detail is "too many inputs in template";
    the world is as before, so neither signature assembly nor any call to
    the ledger engine or the generator has been made. *)
Theorem FinalizeTx_too_many_inputs (env : Env) (t : Template) (w : World) :
  (length (Inputs (Unsigned t)) < length (tpl_Inputs t))%nat ->
  exists e : error,
    FinalizeTx env t w = ((None, Some e), w) /\
    errors.Root (Some e) = Some ErrBadTxTemplate /\
    errors.Detail (Some e) = "too many inputs in template" /\
    Some e = errors.WithDetail (Some (errors.New ErrBadTxTemplate))
                               "too many inputs in template".
Proof.
  intros Hlen. unfold FinalizeTx.
  apply Nat.ltb_lt in Hlen. rewrite Hlen.
  eexists. split; [reflexivity |]. repeat split; reflexivity.
Qed.

Lemma FinalizeTx_too_many_inputs_witness :
  let env := sample_env (Some "generator:1999") None None (Ok None) [] in
  let t := sample_template 2 in
  (length (Inputs (Unsigned t)) < length (tpl_Inputs t))%nat /\
  exists e : error,
    FinalizeTx env t empty_world = ((None, Some e), empty_world) /\
    errors.Root (Some e) = Some ErrBadTxTemplate /\
    errors.Detail (Some e) = "too many inputs in template" /\
    Some e = errors.WithDetail (Some (errors.New ErrBadTxTemplate))
                               "too many inputs in template".
Proof.
  intros env t.
  assert (Hlen : (length (Inputs (Unsigned t)) < length (tpl_Inputs t))%nat)
    by (cbn; lia).
  split; [exact Hlen |].
  exact (FinalizeTx_too_many_inputs env t empty_world Hlen).
Defined.

(** C4: when [fc.AddTx] fails, [publishTx] makes no other call (no relay
    to the generator, the pool is as before).  If the root of the failure
    is [validation.ErrBadTx] the returned error has root
    [ErrBadTxTemplate] and the detail string of the engine's error;
    otherwise it is the engine's error wrapped with "add tx to
    blockchain", whose root is the engine's and not [ErrBadTxTemplate]. *)
Theorem publishTx_submission_failure (env : Env) (msg : Tx) (w : World)
    (e : foreign_error) :
  fc_AddTx env msg = Some e ->
  let r := publishTx env msg w in
  r.2 = set_trace (trace w ++ [CallAddTx msg]) w /\
  r.1 <> None /\
  (f_root e = validation_ErrBadTx ->
     errors.Root r.1 = Some ErrBadTxTemplate /\
     errors.Detail r.1 = errors.Detail (Some (of_foreign e))) /\
  (f_root e <> validation_ErrBadTx ->
     r.1 = errors.Wrap (Some (of_foreign e)) "add tx to blockchain" /\
     errors.Root r.1 = Some (Foreign (f_root e)) /\
     errors.Root r.1 <> Some ErrBadTxTemplate).
Proof.
  intros Hadd. unfold publishTx, bind, ret, AddTx. rewrite Hadd.
  cbn [errors.Root of_foreign err_root].
  destruct (decide (Some (Foreign (f_root e)) = Some (Foreign validation_ErrBadTx)))
    as [Hbad | Hother]; cbn [fst snd].
  - split; [reflexivity |].
    assert (Hdetail :
      errors.Detail
        (errors.WithDetail
           (errors.Wrap (Some (errors.New ErrBadTxTemplate))
                        (Sprint_error (Some (of_foreign e))))
           (errors.Detail (Some (of_foreign e))))
      = errors.Detail (Some (of_foreign e))).
    { cbn [errors.Wrap]. apply Detail_WithDetail_fresh.
      rewrite err_detail_wrap. reflexivity. }
    split.
    { intros Hnil. rewrite Hnil in Hdetail.
      pose proof (Root_WithDetail
        (errors.Wrap (Some (errors.New ErrBadTxTemplate))
                     (Sprint_error (Some (of_foreign e))))
        (errors.Detail (Some (of_foreign e)))) as Hroot.
      rewrite Hnil, Root_Wrap in Hroot. discriminate Hroot. }
    split.
    + intros _. split; [| exact Hdetail].
      rewrite Root_WithDetail, Root_Wrap. reflexivity.
    + intros Hne. congruence.
  - rewrite decide_True by discriminate. cbn [fst snd].
    split; [reflexivity |]. split; [discriminate |]. split.
    + intros Heq. rewrite Heq in Hother. contradiction.
    + intros _. split; [reflexivity |].
      rewrite Root_Wrap. cbn. split; [reflexivity | discriminate].
Qed.

Lemma publishTx_submission_failure_witness :
  let env := sample_env (Some "generator:1999") (Some engine_says_invalid)
                        None (Ok None) [] in
  fc_AddTx env spender = Some engine_says_invalid /\
  let r := publishTx env spender empty_world in
  r.2 = set_trace (trace empty_world ++ [CallAddTx spender]) empty_world /\
  r.1 <> None /\
  (f_root engine_says_invalid = validation_ErrBadTx ->
     errors.Root r.1 = Some ErrBadTxTemplate /\
     errors.Detail r.1 = errors.Detail (Some (of_foreign engine_says_invalid))) /\
  (f_root engine_says_invalid <> validation_ErrBadTx ->
     r.1 = errors.Wrap (Some (of_foreign engine_says_invalid))
                       "add tx to blockchain" /\
     errors.Root r.1 = Some (Foreign (f_root engine_says_invalid)) /\
     errors.Root r.1 <> Some ErrBadTxTemplate).
Proof.
  intros env. split; [reflexivity |].
  exact (publishTx_submission_failure env spender empty_world
           engine_says_invalid eq_refl).
Defined.

(** C5: after [fc.AddTx], [publishTx] calls [rpcclient.Submit] exactly
    when the submission succeeded and [Generator] is set and not empty,
    and makes no other call.  When that relay fails, the caller gets the
    relay's error wrapped with "generator transaction notice" (not nil),
    the error is logged, and the transaction stays in the pool. *)
Theorem publishTx_relay (env : Env) (msg : Tx) (w : World) :
  let r := publishTx env msg w in
  (exists after : list Call,
     trace r.2 = trace w ++ CallAddTx msg :: after /\
     ((after = [CallSubmit msg] /\
       fc_AddTx env msg = None /\
       exists g, Generator env = Some g /\ g <> EmptyString) \/
      (after = [] /\
       (fc_AddTx env msg <> None \/
        Generator env = None \/
        Generator env = Some EmptyString)))) /\
  (forall (g : string) (e : foreign_error),
     fc_AddTx env msg = None ->
     Generator env = Some g -> g <> EmptyString ->
     rpcclient_Submit env msg = Some e ->
     r.1 = errors.Wrap (Some (of_foreign e)) "generator transaction notice" /\
     r.1 <> None /\
     pool r.2 = pool w ++ [msg] /\
     log r.2 = log w ++ [[("error", LogError r.1)]]).
Proof.
  unfold publishTx, bind, ret, AddTx, Submit, call, chainlog_Error,
    chainlog_Write.
  destruct (fc_AddTx env msg) as [e0 |] eqn:Hadd.
  - cbn [errors.Root of_foreign err_root].
    split; [| intros g e Hnone; discriminate Hnone].
    exists []. split.
    + destruct (decide (Some (Foreign (f_root e0))
                        = Some (Foreign validation_ErrBadTx)));
        [| rewrite decide_True by discriminate]; reflexivity.
    + right. split; [reflexivity |]. left. discriminate.
  - cbn [errors.Root].
    rewrite decide_False by discriminate.
    rewrite decide_False by (intros H; apply H; reflexivity).
    destruct (Generator env) as [g0 |] eqn:Hgen.
    + destruct (decide (g0 <> EmptyString)) as [Hne | Hempty].
      * split.
        { exists [CallSubmit msg]. split.
          - destruct (rpcclient_Submit env msg); cbn;
              rewrite <- app_assoc; reflexivity.
          - left. split; [reflexivity |]. split; [reflexivity |].
            exists g0. split; [reflexivity | exact Hne]. }
        intros g e _ Hg Hgne Hsub. rewrite Hsub. cbn.
        repeat split; discriminate.
      * split.
        { exists []. split; [reflexivity |].
          right. split; [reflexivity |]. right. right.
          destruct (decide (g0 = EmptyString)) as [-> | Hne];
            [reflexivity | contradiction]. }
        intros g e _ Hg Hgne. injection Hg as <-. contradiction.
    + split.
      * exists []. split; [reflexivity |].
        right. split; [reflexivity |]. right. left. reflexivity.
      * intros g e _ Hg. discriminate Hg.
Qed.

Lemma publishTx_relay_witness :
  let env := sample_env (Some "generator:1999") None (Some relay_down)
                        (Ok None) [] in
  let r := publishTx env spender empty_world in
  trace r.2 = [CallAddTx spender; CallSubmit spender] /\
  r.1 = errors.Wrap (Some (of_foreign relay_down))
                    "generator transaction notice" /\
  r.1 <> None /\
  pool r.2 = [spender] /\
  log r.2 = [[("error", LogError r.1)]].
Proof.
  intros env r.
  destruct (publishTx_relay env spender empty_world) as [_ Hfail].
  destruct (Hfail "generator:1999" relay_down eq_refl eq_refl
              ltac:(discriminate) eq_refl) as (Herr & Hnonnil & Hpool & Hlog).
  split; [reflexivity |].
  split; [exact Herr |]. split; [exact Hnonnil |].
  split; [exact Hpool | exact Hlog].
Defined.

(** [publishTx] and [FinalizeTx] only add calls to the trace. *)
Lemma publishTx_appends (env : Env) (msg : Tx) (w : World) :
  exists calls, trace (publishTx env msg w).2 = trace w ++ calls.
Proof.
  unfold publishTx, bind, ret, AddTx, Submit, call, chainlog_Error,
    chainlog_Write.
  destruct (fc_AddTx env msg) as [e0 |].
  - cbn [errors.Root of_foreign err_root].
    exists [CallAddTx msg].
    destruct (decide (Some (Foreign (f_root e0))
                      = Some (Foreign validation_ErrBadTx)));
      [| rewrite decide_True by discriminate]; reflexivity.
  - cbn [errors.Root].
    rewrite decide_False by discriminate.
    rewrite decide_False by (intros H; apply H; reflexivity).
    destruct (Generator env) as [g0 |]; [| exists [CallAddTx msg]; reflexivity].
    destruct (decide (g0 <> EmptyString));
      [| exists [CallAddTx msg]; reflexivity].
    exists [CallAddTx msg; CallSubmit msg].
    destruct (rpcclient_Submit env msg); cbn; rewrite <- app_assoc; reflexivity.
Qed.

Lemma FinalizeTx_appends (env : Env) (t : Template) (w : World) :
  exists calls, trace (FinalizeTx env t w).2 = trace w ++ calls.
Proof.
  unfold FinalizeTx.
  destruct (length (Inputs (Unsigned t)) <? length (tpl_Inputs t))%nat.
  - exists []. rewrite app_nil_r. reflexivity.
  - unfold bind, call, ret. cbn [fst snd].
    destruct (AssembleSignatures env t) as [msg | e].
    + destruct (publishTx_appends env msg
                  (set_trace (trace w ++ [CallAssembleSignatures t]) w))
        as [calls Hcalls].
      destruct (publishTx env msg _) as [err w'] eqn:Hpub.
      cbn [snd trace set_trace] in Hcalls.
      exists (CallAssembleSignatures t :: calls).
      rewrite <- app_assoc in Hcalls.
      destruct (decide (err <> None)); [destruct (MarshalText env msg) |];
        exact Hcalls.
    + exists [CallAssembleSignatures t]. reflexivity.
Qed.

(** ** The confirmation waiter *)

Lemma record_nil (w : World) : record [] w = w.
Proof. destruct w. unfold record, set_trace. cbn. rewrite app_nil_r. reflexivity. Qed.

Lemma record_record (c1 c2 : list Call) (w : World) :
  record c2 (record c1 w) = record (c1 ++ c2) w.
Proof. unfold record, set_trace. cbn. rewrite app_assoc. reflexivity. Qed.

Lemma u64_add_succ (c : Z) (k : nat) :
  u64_add (u64_succ c) (Z.of_nat k) = u64_add c (Z.of_nat (S k)).
Proof.
  unfold u64_add, u64_succ, wrap_u64.
  rewrite Zplus_mod_idemp_l. f_equal. lia.
Qed.

(** The heights waited for are captured+1, captured+2, ... as [uint64]s. *)
Lemma awaited_polls (h : Hash) (n : nat) :
  forall c : Z,
    awaited (polls h c n) = (fun k => u64_add c (Z.of_nat k)) <$> seq 1 n.
Proof.
  induction n as [| n IH]; intros c; [reflexivity |].
  cbn [polls awaited omap list_omap]. fold (awaited (polls h (u64_succ c) n)).
  rewrite IH. cbn [seq fmap list_fmap].
  change (u64_add c (Z.of_nat 1)) with (u64_succ c). f_equal.
  rewrite <- (fmap_S_seq 1 n), <- list_fmap_compose. apply list_fmap_ext.
  intros i k _. cbn [compose]. apply u64_add_succ.
Qed.

(** Through blocks that decide nothing the loop goes on, one height per
    block. *)
Lemma wait_loop_pending (tx : Tx) (pending : list select_event) :
  forall (height : Z) (rest : list select_event) (w : World),
    Forall (fun ev => in_pool_only (tx_Hash tx) ev = true) pending ->
    wait_loop tx height (pending ++ rest) w =
    wait_loop tx (Nat.iter (length pending) u64_succ height) rest
              (record (polls (tx_Hash tx) height (length pending)) w).
Proof.
  induction pending as [| ev pending IH]; intros height rest w Hall.
  - cbn [app length Nat.iter polls]. rewrite record_nil. reflexivity.
  - apply Forall_cons in Hall as [Hev Hall].
    destruct ev as [c | [e |] [[poolTxs bcTxs] | e']]; try discriminate Hev.
    cbn [in_pool_only] in Hev.
    apply andb_true_iff in Hev as [Hbc Hpool].
    apply bool_decide_eq_true in Hbc, Hpool.
    cbn [app length polls]. rewrite Nat.iter_succ_r.
    cbn [wait_loop]. unfold bind at 1 2. unfold call at 1 2.
    rewrite decide_False by (rewrite Hbc; apply is_Some_None).
    rewrite decide_False by (intros Hnone; rewrite Hnone in Hpool;
                             apply is_Some_None in Hpool; exact Hpool).
    rewrite IH by exact Hall. f_equal.
    unfold record, set_trace. cbn. rewrite <- !app_assoc. reflexivity.
Qed.

Lemma polls_S_r (h : Hash) (n : nat) :
  forall c : Z,
    polls h c (S n) =
    polls h c n ++
      [CallWaitForBlock (u64_succ (Nat.iter n u64_succ c)); CallGetTxs h].
Proof.
  induction n as [| n IH]; intros c; [reflexivity |].
  change (polls h c (S (S n)))
    with (CallWaitForBlock (u64_succ c) :: CallGetTxs h
            :: polls h (u64_succ c) (S n)).
  rewrite IH, Nat.iter_succ_r. reflexivity.
Qed.

(** One iteration on a block that has landed (lines 101-113). *)
Lemma wait_loop_block (tx : Tx) (height : Z)
    (poolTxs bcTxs : gmap string Tx) (rest : list select_event) (w : World) :
  wait_loop tx height (BlockWaited None (Ok (poolTxs, bcTxs)) :: rest) w =
    let w' := record [CallWaitForBlock (u64_succ height);
                      CallGetTxs (tx_Hash tx)] w in
    if decide (is_Some (bcTxs !! tx_Hash tx)) then (Returned (Some tx) None, w')
    else if decide (poolTxs !! tx_Hash tx = None)
         then (Returned None (Some (errors.New ErrRejected)), w')
         else wait_loop tx (u64_succ height) rest w'.
Proof.
  cbn [wait_loop]. unfold bind at 1 2. unfold call at 1 2.
  assert (Hw : set_trace
                 (trace (set_trace (trace w ++ [CallWaitForBlock (u64_succ height)]) w)
                    ++ [CallGetTxs (tx_Hash tx)])
                 (set_trace (trace w ++ [CallWaitForBlock (u64_succ height)]) w)
               = record [CallWaitForBlock (u64_succ height);
                         CallGetTxs (tx_Hash tx)] w).
  { unfold record, set_trace. cbn. rewrite <- app_assoc. reflexivity. }
  rewrite Hw. cbn zeta.
  destruct (decide (is_Some (bcTxs !! tx_Hash tx))); [reflexivity |].
  destruct (decide (poolTxs !! tx_Hash tx = None)); reflexivity.
Qed.

(** Every run of the loop first waits for the next height and does not
    panic. *)
Lemma wait_loop_first (tx : Tx) (events : list select_event) :
  forall (height : Z) (w : World),
    (exists later,
       trace (wait_loop tx height events w).2 =
       trace w ++ CallWaitForBlock (u64_succ height) :: later) /\
    (wait_loop tx height events w).1 <> Panicked.
Proof.
  induction events as [| ev events IH]; intros height w.
  - split; [exists []; reflexivity | discriminate].
  - destruct ev as [c | [e |] [[poolTxs bcTxs] | e']].
    + split; [exists []; reflexivity | discriminate].
    + split; [exists []; reflexivity | discriminate].
    + split; [exists []; reflexivity | discriminate].
    + rewrite wait_loop_block. cbn zeta.
      destruct (decide (is_Some (bcTxs !! tx_Hash tx))).
      { split; [exists [CallGetTxs (tx_Hash tx)]; reflexivity | discriminate]. }
      destruct (decide (poolTxs !! tx_Hash tx = None)).
      { split; [exists [CallGetTxs (tx_Hash tx)]; reflexivity | discriminate]. }
      destruct (IH (u64_succ height)
                   (record [CallWaitForBlock (u64_succ height);
                            CallGetTxs (tx_Hash tx)] w)) as [[later Hlater] Hok].
      split; [| exact Hok].
      eexists. rewrite Hlater. unfold record, set_trace. cbn [trace].
      rewrite <- app_assoc. reflexivity.
    + split; [exists [CallGetTxs (tx_Hash tx)] | discriminate].
      cbn. rewrite <- app_assoc. reflexivity.
Qed.

(** What [FinalizeTxWait] does once the latest block is read and
    [FinalizeTx] has succeeded. *)
Lemma FinalizeTxWait_enters_loop (env : Env) (t : Template) (w w1 : World)
    (b : option Block) (tx : Tx) :
  fc_LatestBlock env = Ok b ->
  FinalizeTx env t (record [CallLatestBlock] w) = ((Some tx, None), w1) ->
  FinalizeTxWait env t w =
    wait_loop tx (match b with Some b => Height b | None => 0 end)
              (select_events env) w1.
Proof.
  intros Hlatest Hfinal. unfold FinalizeTxWait, bind at 1, call.
  rewrite Hlatest. unfold bind at 1.
  change (set_trace (trace w ++ [CallLatestBlock]) w)
    with (record [CallLatestBlock] w).
  rewrite Hfinal. reflexivity.
Qed.

(** C2: [FinalizeTxWait] reads the latest block before [FinalizeTx] makes
    any call, then waits for the heights captured+1, captured+2, ... one
    after the other (as [uint64]s), asking [GetTxs] after each block.
    After blocks that found the transaction in the pool only, the next
    landed block decides: in the chain, the transaction is returned with
    no error; in neither pool nor chain, [ErrRejected] is returned; in the
    pool only, the loop goes on at the next height. *)
Theorem FinalizeTxWait_polls_and_classifies (env : Env) (t : Template)
    (w w1 : World) (b : option Block) (tx : Tx)
    (pending rest : list select_event) (poolTxs bcTxs : gmap string Tx) :
  fc_LatestBlock env = Ok b ->
  FinalizeTx env t (record [CallLatestBlock] w) = ((Some tx, None), w1) ->
  select_events env = pending ++ BlockWaited None (Ok (poolTxs, bcTxs)) :: rest ->
  Forall (fun ev => in_pool_only (tx_Hash tx) ev = true) pending ->
  let captured := match b with Some b => Height b | None => 0 end in
  let n := S (length pending) in
  let w' := record (polls (tx_Hash tx) captured n) w1 in
  (exists calls, trace w1 = trace w ++ CallLatestBlock :: calls) /\
  awaited (polls (tx_Hash tx) captured n)
    = (fun k => u64_add captured (Z.of_nat k)) <$> seq 1 n /\
  (is_Some (bcTxs !! tx_Hash tx) ->
     FinalizeTxWait env t w = (Returned (Some tx) None, w')) /\
  (bcTxs !! tx_Hash tx = None -> poolTxs !! tx_Hash tx = None ->
     FinalizeTxWait env t w
       = (Returned None (Some (errors.New ErrRejected)), w')) /\
  (bcTxs !! tx_Hash tx = None -> is_Some (poolTxs !! tx_Hash tx) ->
     FinalizeTxWait env t w
       = wait_loop tx (Nat.iter n u64_succ captured) rest w').
Proof.
  intros Hlatest Hfinal Hevents Hpending captured n w'.
  pose proof (FinalizeTxWait_enters_loop env t w w1 b tx Hlatest Hfinal) as Hloop.
  fold captured in Hloop.
  rewrite Hevents, (wait_loop_pending tx pending captured _ w1 Hpending),
    wait_loop_block in Hloop.
  cbn zeta in Hloop. rewrite record_record, <- polls_S_r in Hloop.
  fold n in Hloop. fold w' in Hloop.
  split.
  { destruct (FinalizeTx_appends env t (record [CallLatestBlock] w))
      as [calls Hcalls].
    rewrite Hfinal in Hcalls. cbn [snd] in Hcalls.
    exists calls. rewrite Hcalls. unfold record, set_trace. cbn [trace].
    rewrite <- app_assoc. reflexivity. }
  split; [apply awaited_polls |].
  split; [| split].
  - intros Hbc. rewrite Hloop, decide_True by exact Hbc. reflexivity.
  - intros Hbc Hpool. rewrite Hloop.
    rewrite decide_False by (rewrite Hbc; apply is_Some_None).
    rewrite decide_True by exact Hpool. reflexivity.
  - intros Hbc Hpool. rewrite Hloop.
    rewrite decide_False by (rewrite Hbc; apply is_Some_None).
    rewrite decide_False; [reflexivity |].
    intros Hnone. rewrite Hnone in Hpool. apply is_Some_None in Hpool.
    exact Hpool.
Qed.

(** The case [ctx.Done()] of the select (lines 86-87), after blocks that
    found the transaction in the pool only. *)
Lemma FinalizeTxWait_takes_ctx_done (env : Env) (t : Template)
    (w w1 : World) (b : option Block) (tx : Tx)
    (pending rest : list select_event) (c : ctx_error) :
  fc_LatestBlock env = Ok b ->
  FinalizeTx env t (record [CallLatestBlock] w) = ((Some tx, None), w1) ->
  select_events env = pending ++ CtxDone c :: rest ->
  Forall (fun ev => in_pool_only (tx_Hash tx) ev = true) pending ->
  let captured := match b with Some b => Height b | None => 0 end in
  let n := length pending in
  (FinalizeTxWait env t w).1 = Returned None (Some (ctx_Err c)) /\
  (FinalizeTxWait env t w).2
    = record (polls (tx_Hash tx) captured n ++
              [CallWaitForBlock (u64_succ (Nat.iter n u64_succ captured))]) w1 /\
  errors.Root (Some (ctx_Err c))
    = Some (Foreign match c with
                    | CtxCanceled => context_Canceled
                    | CtxDeadlineExceeded => context_DeadlineExceeded
                    end) /\
  errors.Root (Some (ctx_Err c)) <> Some ErrRejected /\
  ctx_Err c <> errors.New ErrRejected.
Proof.
  intros Hlatest Hfinal Hevents Hpending captured n.
  rewrite (FinalizeTxWait_enters_loop env t w w1 b tx Hlatest Hfinal).
  fold captured.
  rewrite Hevents, (wait_loop_pending tx pending captured _ w1 Hpending).
  fold n. cbn [wait_loop]. unfold bind, call, ret. cbn [fst snd].
  split; [reflexivity |].
  split.
  { change (set_trace (trace ?x ++ ?l) ?x) with (record l x).
    apply record_record. }
  destruct c; cbn; repeat split; discriminate.
Qed.

(** The events of selects that are entered before the context completes
    and take blocks that decide nothing. *)
Lemma events_of_undecided (h : Hash) (pending : list (select_ready * pick)) :
  Forall (fun sp => undecided h sp = true) pending ->
  exists evs : list select_event,
    (forall run, events_of (pending ++ run) = evs ++ events_of run) /\
    Forall (fun ev => in_pool_only h ev = true) evs /\
    length evs = length pending.
Proof.
  induction pending as [| [s p] pending IH]; intros Hall.
  - exists []. split; [reflexivity |]. split; [apply Forall_nil_2 | reflexivity].
  - apply Forall_cons in Hall as [Hsp Hall].
    destruct (IH Hall) as (evs & Hevs & Hpool & Hlen).
    unfold undecided in Hsp. cbn [fst snd] in Hsp.
    destruct (ready_ctx s) as [c |]; [discriminate Hsp |].
    destruct (select_takes s p) as [ev |] eqn:Htakes; [| discriminate Hsp].
    exists (ev :: evs). split; [| split].
    + intros run. cbn [app events_of]. rewrite Htakes, Hevs. reflexivity.
    + apply Forall_cons. split; [exact Hsp | exact Hpool].
    + cbn [length]. rewrite Hlen. reflexivity.
Qed.

(** C6, as the spec words it, fails: when the context has completed and
    the block at the awaited height has landed too, the select may take
    the block, and a transaction found in neither pool nor chain then
    gives [ErrRejected]. *)
Lemma FinalizeTxWait_done_and_block_ready :
  ~ (forall (env : Env) (t : Template) (w w1 : World) (b : option Block)
        (tx : Tx) (pending rest : list (select_ready * pick))
        (s : select_ready) (p : pick) (c : ctx_error),
       fc_LatestBlock env = Ok b ->
       FinalizeTx env t (record [CallLatestBlock] w) = ((Some tx, None), w1) ->
       select_events env = events_of (pending ++ (s, p) :: rest) ->
       Forall (fun sp => undecided (tx_Hash tx) sp = true) pending ->
       ready_ctx s = Some c ->
       (FinalizeTxWait env t w).1 = Returned None (Some (ctx_Err c))).
Proof.
  intros H.
  specialize (H (sample_env None None None (Ok (Some block7))
                   (events_of [(pool_block_ready, PickBlock);
                               (deadline_and_lost_block, PickBlock)]))
                (sample_template 1) empty_world submitted (Some block7)
                spender [(pool_block_ready, PickBlock)] []
                deadline_and_lost_block PickBlock CtxDeadlineExceeded
                eq_refl eq_refl eq_refl).
  assert (Hpending : Forall (fun sp => undecided (tx_Hash spender) sp = true)
                            [(pool_block_ready, PickBlock)]).
  { apply Forall_cons. split; [vm_compute; reflexivity | apply Forall_nil_2]. }
  specialize (H Hpending eq_refl). vm_compute in H. discriminate H.
Qed.

(** C6, amended: when the context completes before a decisive block
    outcome is observed and the select takes the case [ctx.Done()], as it
    must when no block result is ready, [FinalizeTxWait] returns no
    transaction and [ctx.Err()] itself, whose root is [context.Canceled]
    or [context.DeadlineExceeded] and never [ErrRejected]. *)
Theorem FinalizeTxWait_context_done (env : Env) (t : Template)
    (w w1 : World) (b : option Block) (tx : Tx)
    (pending rest : list (select_ready * pick))
    (s : select_ready) (p : pick) (c : ctx_error) :
  fc_LatestBlock env = Ok b ->
  FinalizeTx env t (record [CallLatestBlock] w) = ((Some tx, None), w1) ->
  select_events env = events_of (pending ++ (s, p) :: rest) ->
  Forall (fun sp => undecided (tx_Hash tx) sp = true) pending ->
  ready_ctx s = Some c ->
  ready_block s = None \/ p = PickDone ->
  let captured := match b with Some b => Height b | None => 0 end in
  let n := length pending in
  (FinalizeTxWait env t w).1 = Returned None (Some (ctx_Err c)) /\
  (FinalizeTxWait env t w).2
    = record (polls (tx_Hash tx) captured n ++
              [CallWaitForBlock (u64_succ (Nat.iter n u64_succ captured))]) w1 /\
  errors.Root (Some (ctx_Err c))
    = Some (Foreign match c with
                    | CtxCanceled => context_Canceled
                    | CtxDeadlineExceeded => context_DeadlineExceeded
                    end) /\
  errors.Root (Some (ctx_Err c)) <> Some ErrRejected /\
  ctx_Err c <> errors.New ErrRejected.
Proof.
  intros Hlatest Hfinal Hevents Hpending Hctx Htaken captured n.
  destruct (events_of_undecided (tx_Hash tx) pending Hpending)
    as (evs & Hevs & Hpool & Hlen).
  assert (Htakes : select_takes s p = Some (CtxDone c)).
  { unfold select_takes. rewrite Hctx.
    destruct (ready_block s) as [[werr txs] |]; [| reflexivity].
    destruct Htaken as [Hnone | ->]; [discriminate Hnone | reflexivity]. }
  rewrite Hevs in Hevents. cbn [events_of] in Hevents.
  rewrite Htakes in Hevents.
  unfold n. rewrite <- Hlen.
  exact (FinalizeTxWait_takes_ctx_done env t w w1 b tx evs (events_of rest) c
           Hlatest Hfinal Hevents Hpool).
Qed.

(** C10: when [LatestBlock] returns no block and no error, the loop starts
    from height 0: the first height [FinalizeTxWait] waits for is 1, and
    the missing block causes no panic. *)
Theorem FinalizeTxWait_empty_chain (env : Env) (t : Template)
    (w w1 : World) (tx : Tx) :
  fc_LatestBlock env = Ok None ->
  FinalizeTx env t (record [CallLatestBlock] w) = ((Some tx, None), w1) ->
  FinalizeTxWait env t w = wait_loop tx 0 (select_events env) w1 /\
  (exists later,
     trace (FinalizeTxWait env t w).2
       = trace w1 ++ CallWaitForBlock 1 :: later) /\
  (FinalizeTxWait env t w).1 <> Panicked.
Proof.
  intros Hlatest Hfinal.
  rewrite (FinalizeTxWait_enters_loop env t w w1 None tx Hlatest Hfinal).
  split; [reflexivity |].
  exact (wait_loop_first tx (select_events env) 0 w1).
Qed.

Lemma FinalizeTxWait_polls_and_classifies_witness :
  let env := sample_env None None None (Ok (Some block7))
                        [still_in_pool; now_in_chain] in
  let t := sample_template 1 in
  let w1 := submitted in
  fc_LatestBlock env = Ok (Some block7) /\
  FinalizeTx env t (record [CallLatestBlock] empty_world)
    = ((Some spender, None), w1) /\
  select_events env = [still_in_pool] ++ now_in_chain :: [] /\
  Forall (fun ev => in_pool_only (tx_Hash spender) ev = true) [still_in_pool] /\
  awaited (polls "cc" 7 2) = [8; 9] /\
  FinalizeTxWait env t empty_world
    = (Returned (Some spender) None, record (polls "cc" 7 2) w1).
Proof.
  intros env t w1.
  assert (H1 : fc_LatestBlock env = Ok (Some block7)) by reflexivity.
  assert (H2 : FinalizeTx env t (record [CallLatestBlock] empty_world)
               = ((Some spender, None), w1)) by reflexivity.
  assert (H3 : select_events env = [still_in_pool] ++ now_in_chain :: [])
    by reflexivity.
  assert (H4 : Forall (fun ev => in_pool_only (tx_Hash spender) ev = true)
                      [still_in_pool]).
  { apply Forall_cons. split; [vm_compute; reflexivity | apply Forall_nil_2]. }
  destruct (FinalizeTxWait_polls_and_classifies env t empty_world w1
              (Some block7) spender [still_in_pool] [] _ _ H1 H2 H3 H4)
    as (_ & Hheights & Hconfirmed & _).
  split; [exact H1 |]. split; [exact H2 |]. split; [exact H3 |].
  split; [exact H4 |]. split; [exact Hheights |].
  apply Hconfirmed. exists spender. vm_compute. reflexivity.
Defined.

Lemma FinalizeTxWait_context_done_witness :
  let run := [(pool_block_ready, PickBlock); (deadline_only, PickBlock)] in
  let env := sample_env None None None (Ok (Some block7)) (events_of run) in
  let t := sample_template 1 in
  let w1 := submitted in
  fc_LatestBlock env = Ok (Some block7) /\
  FinalizeTx env t (record [CallLatestBlock] empty_world)
    = ((Some spender, None), w1) /\
  select_events env
    = events_of ([(pool_block_ready, PickBlock)]
                 ++ (deadline_only, PickBlock) :: []) /\
  Forall (fun sp => undecided (tx_Hash spender) sp = true)
         [(pool_block_ready, PickBlock)] /\
  ready_ctx deadline_only = Some CtxDeadlineExceeded /\
  (ready_block deadline_only = None \/ PickBlock = PickDone) /\
  (FinalizeTxWait env t empty_world).1
    = Returned None (Some (errors.New (Foreign context_DeadlineExceeded))) /\
  errors.Root (Some (ctx_Err CtxDeadlineExceeded)) <> Some ErrRejected.
Proof.
  intros run env t w1.
  assert (H1 : fc_LatestBlock env = Ok (Some block7)) by reflexivity.
  assert (H2 : FinalizeTx env t (record [CallLatestBlock] empty_world)
               = ((Some spender, None), w1)) by reflexivity.
  assert (H3 : select_events env
               = events_of ([(pool_block_ready, PickBlock)]
                            ++ (deadline_only, PickBlock) :: []))
    by reflexivity.
  assert (H4 : Forall (fun sp => undecided (tx_Hash spender) sp = true)
                      [(pool_block_ready, PickBlock)]).
  { apply Forall_cons. split; [vm_compute; reflexivity | apply Forall_nil_2]. }
  assert (H5 : ready_ctx deadline_only = Some CtxDeadlineExceeded)
    by reflexivity.
  assert (H6 : ready_block deadline_only = None \/ PickBlock = PickDone)
    by (left; reflexivity).
  destruct (FinalizeTxWait_context_done env t empty_world w1
              (Some block7) spender [(pool_block_ready, PickBlock)] []
              deadline_only PickBlock CtxDeadlineExceeded
              H1 H2 H3 H4 H5 H6)
    as (Hret & _ & _ & Hnot & _).
  split; [exact H1 |]. split; [exact H2 |]. split; [exact H3 |].
  split; [exact H4 |]. split; [exact H5 |]. split; [exact H6 |].
  split; [exact Hret | exact Hnot].
Defined.

Lemma FinalizeTxWait_empty_chain_witness :
  let env := sample_env None None None (Ok None) [now_in_chain] in
  let t := sample_template 1 in
  let w1 := submitted in
  fc_LatestBlock env = Ok None /\
  FinalizeTx env t (record [CallLatestBlock] empty_world)
    = ((Some spender, None), w1) /\
  FinalizeTxWait env t empty_world = wait_loop spender 0 [now_in_chain] w1 /\
  (exists later,
     trace (FinalizeTxWait env t empty_world).2
       = trace w1 ++ CallWaitForBlock 1 :: later) /\
  (FinalizeTxWait env t empty_world).1 <> Panicked.
Proof.
  intros env t w1.
  assert (H1 : fc_LatestBlock env = Ok None) by reflexivity.
  assert (H2 : FinalizeTx env t (record [CallLatestBlock] empty_world)
               = ((Some spender, None), w1)) by reflexivity.
  split; [exact H1 |]. split; [exact H2 |].
  exact (FinalizeTxWait_empty_chain env t empty_world w1 spender H1 H2).
Defined.

(** * Further properties of the code *)

(** ** toKeyIndex *)

(** X1: the two components can be read back from the key: the high one by
    shifting right by 31 bits, the low one (its 31 low bits) by masking. *)
Theorem toKeyIndex_decode (high low : Z) :
  is_u32 high -> is_u32 low ->
  exists k : Z,
    toKeyIndex [high; low] = Some k /\
    Z.shiftr k 31 = high /\
    Z.land k 0x7fffffff = low mod 2 ^ 31.
Proof.
  intros Hh Hl. exists (high * 2 ^ 31 + low mod 2 ^ 31).
  split; [apply toKeyIndex_value; assumption |].
  unfold is_u32 in *.
  assert (Hm : 0 <= low mod 2 ^ 31 < 2 ^ 31) by (apply Z.mod_pos_bound; lia).
  split.
  - rewrite Z.shiftr_div_pow2 by lia.
    rewrite Z.div_add_l by lia. rewrite Z.div_small by exact Hm. lia.
  - change 0x7fffffff with (Z.ones 31). rewrite Z.land_ones by lia.
    rewrite Z.add_comm, Z.mod_add by lia. apply Z.mod_small. exact Hm.
Qed.

Lemma toKeyIndex_decode_witness :
  is_u32 7 /\ is_u32 (2 ^ 31 + 9) /\
  exists k : Z,
    toKeyIndex [7; 2 ^ 31 + 9] = Some k /\
    Z.shiftr k 31 = 7 /\
    Z.land k 0x7fffffff = (2 ^ 31 + 9) mod 2 ^ 31.
Proof.
  assert (H7 : is_u32 7) by (unfold is_u32; lia).
  assert (H9 : is_u32 (2 ^ 31 + 9)) by (unfold is_u32; lia).
  split; [exact H7 |]. split; [exact H9 |].
  exact (toKeyIndex_decode 7 (2 ^ 31 + 9) H7 H9).
Defined.

(** X2: keys compare as the pairs (high, low mod 2^31) do
    lexicographically; two pairs get the same key exactly when they agree
    on the high component and on the 31 low bits of the low one, so bit 31
    of the low component is lost. *)
Theorem toKeyIndex_order (h1 l1 h2 l2 : Z) :
  is_u32 h1 -> is_u32 l1 -> is_u32 h2 -> is_u32 l2 ->
  exists k1 k2 : Z,
    toKeyIndex [h1; l1] = Some k1 /\
    toKeyIndex [h2; l2] = Some k2 /\
    (k1 < k2 <->
       h1 < h2 \/ (h1 = h2 /\ l1 mod 2 ^ 31 < l2 mod 2 ^ 31)) /\
    (k1 = k2 <-> h1 = h2 /\ l1 mod 2 ^ 31 = l2 mod 2 ^ 31).
Proof.
  intros Hh1 Hl1 Hh2 Hl2.
  exists (h1 * 2 ^ 31 + l1 mod 2 ^ 31), (h2 * 2 ^ 31 + l2 mod 2 ^ 31).
  split; [apply toKeyIndex_value; assumption |].
  split; [apply toKeyIndex_value; assumption |].
  unfold is_u32 in *.
  assert (Hm1 : 0 <= l1 mod 2 ^ 31 < 2 ^ 31) by (apply Z.mod_pos_bound; lia).
  assert (Hm2 : 0 <= l2 mod 2 ^ 31 < 2 ^ 31) by (apply Z.mod_pos_bound; lia).
  generalize dependent (l1 mod 2 ^ 31). generalize dependent (l2 mod 2 ^ 31).
  intros m2 Hm2 m1 Hm1. split; lia.
Qed.

Lemma toKeyIndex_order_witness :
  is_u32 1 /\ is_u32 5 /\ is_u32 1 /\ is_u32 (2 ^ 31 + 5) /\
  exists k1 k2 : Z,
    toKeyIndex [1; 5] = Some k1 /\
    toKeyIndex [1; 2 ^ 31 + 5] = Some k2 /\
    (k1 < k2 <->
       1 < 1 \/ (1 = 1 /\ 5 mod 2 ^ 31 < (2 ^ 31 + 5) mod 2 ^ 31)) /\
    (k1 = k2 <-> 1 = 1 /\ 5 mod 2 ^ 31 = (2 ^ 31 + 5) mod 2 ^ 31).
Proof.
  assert (H1 : is_u32 1) by (unfold is_u32; lia).
  assert (H5 : is_u32 5) by (unfold is_u32; lia).
  assert (H6 : is_u32 (2 ^ 31 + 5)) by (unfold is_u32; lia).
  split; [exact H1 |]. split; [exact H5 |]. split; [exact H1 |].
  split; [exact H6 |].
  exact (toKeyIndex_order 1 5 1 (2 ^ 31 + 5) H1 H5 H1 H6).
Defined.

(** ** markPrevSpentInPool *)

Lemma set_spent_in_pool_twice (a b : bool) (r : utxo_row) :
  set_spent_in_pool a (set_spent_in_pool b r) = set_spent_in_pool a r.
Proof. reflexivity. Qed.

Lemma mark_rows_app (spent : bool) (k1 k2 : list (string * Z))
    (tbl : list utxo_row) :
  mark_rows spent (k1 ++ k2) tbl = mark_rows spent k2 (mark_rows spent k1 tbl).
Proof.
  unfold mark_rows. rewrite <- list_fmap_compose. apply list_fmap_ext.
  intros i r _. cbn [compose].
  destruct (decide (row_key r ∈ k1)) as [H1 | H1].
  - rewrite decide_True by (apply elem_of_app; left; exact H1).
    rewrite row_key_set_spent_in_pool.
    destruct (decide (row_key r ∈ k2)); reflexivity.
  - destruct (decide (row_key r ∈ k2)) as [H2 | H2].
    + rewrite decide_True by (apply elem_of_app; right; exact H2). reflexivity.
    + rewrite decide_False; [reflexivity |].
      intros Hin. apply elem_of_app in Hin as [Hin | Hin]; contradiction.
Qed.

Lemma mark_rows_idem (spent : bool) (keys : list (string * Z))
    (tbl : list utxo_row) :
  mark_rows spent keys (mark_rows spent keys tbl) = mark_rows spent keys tbl.
Proof.
  unfold mark_rows. rewrite <- list_fmap_compose. apply list_fmap_ext.
  intros i r _. cbn [compose].
  destruct (decide (row_key r ∈ keys)) as [Hin | Hout].
  - rewrite row_key_set_spent_in_pool, decide_True by exact Hin. reflexivity.
  - rewrite decide_False by exact Hout. reflexivity.
Qed.

Lemma mark_rows_nil (spent : bool) (tbl : list utxo_row) :
  mark_rows spent [] tbl = tbl.
Proof.
  unfold mark_rows. rewrite <- (list_fmap_id tbl) at 2.
  apply list_fmap_ext. intros i r _.
  rewrite decide_False by apply not_elem_of_nil. reflexivity.
Qed.

(** Marking changes no column but [spent_in_pool]. *)
Lemma mark_rows_frame (spent : bool) (keys : list (string * Z))
    (tbl : list utxo_row) :
  set_spent_in_pool false <$> mark_rows spent keys tbl
  = set_spent_in_pool false <$> tbl.
Proof.
  unfold mark_rows. rewrite <- list_fmap_compose. apply list_fmap_ext.
  intros i r _. cbn [compose].
  destruct (decide (row_key r ∈ keys)); reflexivity.
Qed.

Lemma prevouts_app (txs1 txs2 : list Tx) :
  prevouts (txs1 ++ txs2) = prevouts txs1 ++ prevouts txs2.
Proof. unfold prevouts. apply flat_map_app. Qed.

Lemma prevouts_issuance_only (txs : list Tx) :
  (forall tx i, tx ∈ txs -> i ∈ Inputs (tx_data tx) -> IsIssuance i = true) ->
  prevouts txs = [].
Proof.
  induction txs as [| tx txs IH]; intros Hall; [reflexivity |].
  unfold prevouts. cbn [flat_map]. fold (prevouts txs).
  rewrite IH by (intros tx' i Htx; apply Hall, elem_of_cons; right; exact Htx).
  rewrite app_nil_r.
  assert (Htx : forall i, i ∈ Inputs (tx_data tx) -> IsIssuance i = true)
    by (intros i; apply Hall, elem_of_cons; left; reflexivity).
  unfold prevouts_of. induction (Inputs (tx_data tx)) as [| i ins IHins];
    [reflexivity |].
  cbn [omap list_omap].
  rewrite (Htx i) by (apply elem_of_cons; left; reflexivity).
  apply IHins. intros i' Hi'. apply Htx, elem_of_cons. right. exact Hi'.
Qed.

(** X3: on a healthy session, repeating a call with the same arguments
    changes nothing more. *)
Theorem markPrevSpentInPool_idempotent (spent : bool) (txs : list Tx)
    (w : World) :
  db_faults w = [] ->
  let r1 := markPrevSpentInPool spent txs w in
  let r2 := markPrevSpentInPool spent txs r1.2 in
  r1.1 = None /\ r2.1 = None /\ r2.2 = r1.2.
Proof.
  intros Hfaults.
  unfold markPrevSpentInPool, pg_Exec, sql_set_spent_in_pool.
  rewrite Hfaults. cbn -[mark_rows prevouts].
  rewrite mark_rows_idem. repeat split; reflexivity.
Qed.

Lemma markPrevSpentInPool_idempotent_witness :
  let w := set_account_utxos [proposed_row (sample_out "aa" 0)] empty_world in
  db_faults w = [] /\
  let r1 := markPrevSpentInPool true [spender] w in
  let r2 := markPrevSpentInPool true [spender] r1.2 in
  r1.1 = None /\ r2.1 = None /\ r2.2 = r1.2.
Proof.
  intros w. split; [reflexivity |].
  exact (markPrevSpentInPool_idempotent true [spender] w eq_refl).
Defined.

(** X4: on a healthy session, one call for a batch of transactions leaves
    the world as one call for the first part followed by one for the
    rest. *)
Theorem markPrevSpentInPool_batch (spent : bool) (txs1 txs2 : list Tx)
    (w : World) :
  db_faults w = [] ->
  markPrevSpentInPool spent (txs1 ++ txs2) w =
  markPrevSpentInPool spent txs2 (markPrevSpentInPool spent txs1 w).2.
Proof.
  intros Hfaults.
  unfold markPrevSpentInPool, pg_Exec, sql_set_spent_in_pool.
  rewrite Hfaults. cbn -[mark_rows prevouts].
  rewrite prevouts_app, mark_rows_app. reflexivity.
Qed.

Lemma markPrevSpentInPool_batch_witness :
  let w := set_account_utxos [proposed_row (sample_out "aa" 0)] empty_world in
  db_faults w = [] /\
  markPrevSpentInPool true ([spender] ++ [spender]) w =
  markPrevSpentInPool true [spender] (markPrevSpentInPool true [spender] w).2.
Proof.
  intros w. split; [reflexivity |].
  exact (markPrevSpentInPool_batch true [spender] [spender] w eq_refl).
Defined.

(** X5: whatever the session does, a call adds, removes and reorders no
    row and changes no column but [spent_in_pool]; it touches neither the
    pool, the calls made nor the log; when it returns an error no row has
    changed. *)
Theorem markPrevSpentInPool_frame (spent : bool) (txs : list Tx) (w : World) :
  let r := markPrevSpentInPool spent txs w in
  set_spent_in_pool false <$> account_utxos r.2
    = set_spent_in_pool false <$> account_utxos w /\
  pool r.2 = pool w /\ trace r.2 = trace w /\ log r.2 = log w /\
  (r.1 <> None -> account_utxos r.2 = account_utxos w).
Proof.
  unfold markPrevSpentInPool, pg_Exec, sql_set_spent_in_pool.
  destruct (db_faults w) as [| [e |] rest]; cbn -[mark_rows prevouts].
  - rewrite mark_rows_frame. repeat split; try reflexivity.
    intros H. contradiction.
  - repeat split; reflexivity.
  - rewrite mark_rows_frame. repeat split; try reflexivity.
    intros H. contradiction.
Qed.

(** X6: transactions all of whose inputs are issuances (and an empty list
    of transactions) mark nothing. *)
Theorem markPrevSpentInPool_issuance_only (spent : bool) (txs : list Tx)
    (w : World) :
  (forall tx i, tx ∈ txs -> i ∈ Inputs (tx_data tx) -> IsIssuance i = true) ->
  account_utxos (markPrevSpentInPool spent txs w).2 = account_utxos w.
Proof.
  intros Hall.
  unfold markPrevSpentInPool, pg_Exec, sql_set_spent_in_pool.
  rewrite (prevouts_issuance_only txs Hall).
  destruct (db_faults w) as [| [e |] rest]; cbn -[mark_rows];
    rewrite ?mark_rows_nil; reflexivity.
Qed.

Lemma markPrevSpentInPool_issuance_only_witness :
  let w := set_account_utxos [spent_row] empty_world in
  (forall tx i, tx ∈ [issuer] -> i ∈ Inputs (tx_data tx) ->
     IsIssuance i = true) /\
  account_utxos (markPrevSpentInPool false [issuer] w).2 = account_utxos w.
Proof.
  intros w.
  assert (Hall : forall tx i, tx ∈ [issuer] -> i ∈ Inputs (tx_data tx) ->
                   IsIssuance i = true).
  { intros tx i Htx Hi. apply list_elem_of_singleton in Htx. subst tx.
    apply list_elem_of_singleton in Hi. subst i. reflexivity. }
  split; [exact Hall |].
  exact (markPrevSpentInPool_issuance_only false [issuer] w Hall).
Defined.

(** ** insertAccountOutputs *)

(** X7: on a healthy session [insertAccountOutputs] returns no error and
    only appends: the stored rows stay as they are (a stored outpoint is
    never overwritten), every new row is the row of a listed output whose
    outpoint was not stored, and of several listed outputs with the same
    new outpoint the first one is stored. *)
Theorem insertAccountOutputs_appends_first (outs : list Output) (w : World) :
  db_faults w = [] ->
  let r := insertAccountOutputs outs w in
  r.1 = None /\
  exists added : list utxo_row,
    account_utxos r.2 = account_utxos w ++ added /\
    (forall row, row ∈ added ->
       (row_key row ∉ row_key <$> account_utxos w) /\
       exists o, o ∈ outs /\ row = proposed_row o) /\
    (forall (i : nat) o,
       outs !! i = Some o ->
       row_key (proposed_row o) ∉ row_key <$> account_utxos w ->
       (forall (j : nat) o', (j < i)%nat -> outs !! j = Some o' ->
          out_Outpoint o' <> out_Outpoint o) ->
       proposed_row o ∈ added).
Proof.
  intros Hfaults.
  destruct (sql_insert_DoNothing_added (proposed_row <$> outs)
              (account_utxos w)) as (added & Heq & Hfrom & Hfirst).
  unfold insertAccountOutputs, bind, ret, pg_Exec. cbn zeta.
  rewrite Hfaults, Heq. cbn.
  split; [reflexivity |]. exists added. split; [reflexivity |]. split.
  - intros row Hrow. destruct (Hfrom row Hrow) as [Hprop Hnew].
    split; [exact Hnew |].
    apply list_elem_of_fmap in Hprop as (o & -> & Ho). exists o.
    split; [exact Ho | reflexivity].
  - intros i o Hi Hnew Hearlier.
    apply (Hfirst i (proposed_row o)).
    + rewrite list_lookup_fmap, Hi. reflexivity.
    + exact Hnew.
    + intros j r' Hj Hr'. rewrite list_lookup_fmap in Hr'.
      destruct (outs !! j) as [o' |] eqn:Hoj; [| discriminate Hr'].
      cbn in Hr'. injection Hr' as <-.
      intros Hkey. apply (Hearlier j o' Hj Hoj).
      unfold row_key, proposed_row, Hash_String in Hkey. cbn in Hkey.
      destruct (out_Outpoint o'), (out_Outpoint o). cbn in Hkey.
      congruence.
Qed.

Lemma insertAccountOutputs_appends_first_witness :
  let outs := [sample_out "aa" 0; sample_out "bb" 1; sample_out "bb" 1] in
  let w := set_account_utxos [spent_row] empty_world in
  db_faults w = [] /\
  let r := insertAccountOutputs outs w in
  r.1 = None /\
  exists added : list utxo_row,
    account_utxos r.2 = account_utxos w ++ added /\
    (forall row, row ∈ added ->
       (row_key row ∉ row_key <$> account_utxos w) /\
       exists o, o ∈ outs /\ row = proposed_row o) /\
    (forall (i : nat) o,
       outs !! i = Some o ->
       row_key (proposed_row o) ∉ row_key <$> account_utxos w ->
       (forall (j : nat) o', (j < i)%nat -> outs !! j = Some o' ->
          out_Outpoint o' <> out_Outpoint o) ->
       proposed_row o ∈ added).
Proof.
  intros outs w. split; [reflexivity |].
  exact (insertAccountOutputs_appends_first outs w eq_refl).
Defined.

(** ** addBlock *)

Lemma confirm_rows_lookup (height : Z) (t : list (string * Z))
    (tbl : list utxo_row) (j : nat) :
  confirm_rows height t tbl !! j =
    (fun r => match list_find (fun p => p.1 = tx_hash r) t with
              | Some (_, (_, pos)) => set_confirmed height pos r
              | None => r
              end) <$> tbl !! j.
Proof. unfold confirm_rows. apply list_lookup_fmap. Qed.

Lemma confirm_rows_idem (height : Z) (t : list (string * Z))
    (tbl : list utxo_row) :
  confirm_rows height t (confirm_rows height t tbl) = confirm_rows height t tbl.
Proof.
  unfold confirm_rows. rewrite <- list_fmap_compose. apply list_fmap_ext.
  intros i r _. cbn [compose].
  destruct (list_find (fun p => p.1 = tx_hash r) t) as [[n [h pos]] |] eqn:Hfind.
  - cbn [set_confirmed tx_hash]. rewrite Hfind. reflexivity.
  - rewrite Hfind. reflexivity.
Qed.

(** The two updates of [addBlock] write different columns. *)
Lemma mark_confirm_commute (spent : bool) (keys : list (string * Z))
    (height : Z) (t : list (string * Z)) (tbl : list utxo_row) :
  mark_rows spent keys (confirm_rows height t tbl)
  = confirm_rows height t (mark_rows spent keys tbl).
Proof.
  unfold mark_rows, confirm_rows. rewrite <- !list_fmap_compose.
  apply list_fmap_ext. intros i r _. cbn [compose].
  destruct (list_find (fun p => p.1 = tx_hash r) t) as [[n [h pos]] |] eqn:Hfind;
    destruct (decide (row_key r ∈ keys)) as [Hin | Hout].
  - rewrite decide_True by exact Hin. cbn [set_spent_in_pool tx_hash].
    rewrite Hfind. reflexivity.
  - rewrite decide_False by exact Hout. rewrite Hfind. reflexivity.
  - cbn [set_spent_in_pool tx_hash]. rewrite Hfind. reflexivity.
  - rewrite Hfind. reflexivity.
Qed.

Lemma confirm_rows_payload (height : Z) (t : list (string * Z))
    (tbl : list utxo_row) :
  row_payload <$> confirm_rows height t tbl = row_payload <$> tbl.
Proof.
  unfold confirm_rows. rewrite <- list_fmap_compose. apply list_fmap_ext.
  intros i r _. cbn [compose].
  destruct (list_find (fun p => p.1 = tx_hash r) t) as [[n [h pos]] |];
    reflexivity.
Qed.

Lemma mark_rows_payload (spent : bool) (keys : list (string * Z))
    (tbl : list utxo_row) :
  row_payload <$> mark_rows spent keys tbl = row_payload <$> tbl.
Proof.
  unfold mark_rows. rewrite <- list_fmap_compose. apply list_fmap_ext.
  intros i r _. cbn [compose].
  destruct (decide (row_key r ∈ keys)); reflexivity.
Qed.

(** [addBlock] on a session that does not fail. *)
Lemma addBlock_healthy (b : Block) (conflicts : list Tx) (w : World) :
  db_faults w = [] ->
  addBlock b conflicts w =
    (tt, set_account_utxos
           (mark_rows false (prevouts conflicts)
              (confirm_rows (Height b) (block_positions b) (account_utxos w)))
           w).
Proof.
  intros Hfaults.
  unfold addBlock, markPrevSpentInPool, bind, ret, pg_Exec,
    sql_set_confirmed, sql_set_spent_in_pool.
  destruct w as [tbl faults p tr lg]. cbn in Hfaults. subst faults.
  reflexivity.
Qed.

(** X8: on a healthy session a second [addBlock] for the same block and
    conflicts changes nothing: confirmation is recorded once. *)
Theorem addBlock_idempotent (b : Block) (conflicts : list Tx) (w : World) :
  db_faults w = [] ->
  addBlock b conflicts (addBlock b conflicts w).2 = addBlock b conflicts w.
Proof.
  intros Hfaults.
  rewrite (addBlock_healthy b conflicts w Hfaults). cbn [snd].
  rewrite addBlock_healthy by (destruct w; exact Hfaults).
  f_equal. destruct w as [tbl faults p tr lg].
  unfold set_account_utxos.
  cbn [account_utxos db_faults pool trace log]. f_equal.
  rewrite <- (mark_confirm_commute false (prevouts conflicts) (Height b)
                (block_positions b)
                (confirm_rows (Height b) (block_positions b) tbl)).
  rewrite mark_rows_idem, confirm_rows_idem. reflexivity.
Qed.

Lemma addBlock_idempotent_witness :
  let w := set_account_utxos [spent_row; spender_row] empty_world in
  db_faults w = [] /\
  addBlock block8 [spender] (addBlock block8 [spender] w).2
    = addBlock block8 [spender] w.
Proof.
  intros w. split; [reflexivity |].
  exact (addBlock_idempotent block8 [spender] w eq_refl).
Defined.

(** X9: whatever the session does, [addBlock] adds, removes and reorders
    no row and leaves every column written at insertion as it is; it
    touches neither the pool nor the calls made. *)
Theorem addBlock_keeps_rows (b : Block) (conflicts : list Tx) (w : World) :
  let w' := (addBlock b conflicts w).2 in
  row_payload <$> account_utxos w' = row_payload <$> account_utxos w /\
  pool w' = pool w /\ trace w' = trace w.
Proof.
  unfold addBlock, markPrevSpentInPool, bind, ret, pg_Exec, chainlog_Write,
    sql_set_confirmed, sql_set_spent_in_pool.
  destruct w as [tbl faults p tr lg].
  cbn [db_faults account_utxos pool trace log].
  destruct faults as [| [e1 |] [| [e2 |] rest]];
    cbn -[confirm_rows mark_rows block_positions prevouts];
    rewrite ?mark_rows_payload, ?confirm_rows_payload;
    repeat split; reflexivity.
Qed.

Lemma block_positions_find (b : Block) (i : nat) (tx : Tx) :
  Transactions b !! i = Some tx ->
  (forall (i' : nat) tx', (i' < i)%nat -> Transactions b !! i' = Some tx' ->
     tx_Hash tx' <> tx_Hash tx) ->
  list_find (fun p : string * Z => p.1 = tx_Hash tx) (block_positions b)
  = Some (i, (tx_Hash tx, wrap_i32 (Z.of_nat i))).
Proof.
  intros Hi Hfirst. apply list_find_Some. unfold block_positions.
  split; [rewrite list_lookup_imap, Hi; reflexivity |].
  split; [reflexivity |].
  intros j y Hj Hlt. rewrite list_lookup_imap in Hj.
  destruct (Transactions b !! j) as [tx' |] eqn:Htx'; [| discriminate Hj].
  cbn in Hj. injection Hj as <-. cbn. apply (Hfirst j tx' Hlt Htx').
Qed.

Lemma block_positions_absent (b : Block) (h : string) :
  h ∉ tx_Hash <$> Transactions b ->
  list_find (fun p : string * Z => p.1 = h) (block_positions b) = None.
Proof.
  intros Habsent. apply list_find_None, Forall_forall.
  intros [h' pos] Hin Heq. cbn in Heq. subst h'.
  unfold block_positions in Hin.
  apply list_elem_of_lookup in Hin as [i Hi].
  rewrite list_lookup_imap in Hi.
  destruct (Transactions b !! i) as [tx |] eqn:Htx; [| discriminate Hi].
  cbn in Hi. injection Hi as Hh _. apply Habsent.
  apply list_elem_of_fmap. exists tx. split; [symmetry; exact Hh |].
  apply list_elem_of_lookup. exists i. exact Htx.
Qed.

(** X10: when the confirmation update succeeds, every stored row of a
    transaction of the block (whose hash no other transaction of the block
    has) gets [confirmed_in] at the block's height and [block_pos] at the
    position of the transaction in the block, as an [int32], whether the
    release of the conflicts succeeds or not. *)
Theorem addBlock_confirms (b : Block) (conflicts : list Tx) (w : World)
    (i j : nat) (tx : Tx) (r : utxo_row) :
  fault_at w 0 = None ->
  Transactions b !! i = Some tx ->
  (forall (i' : nat) tx', i' <> i -> Transactions b !! i' = Some tx' ->
     tx_Hash tx' <> tx_Hash tx) ->
  account_utxos w !! j = Some r ->
  tx_hash r = tx_Hash tx ->
  exists r' : utxo_row,
    account_utxos (addBlock b conflicts w).2 !! j = Some r' /\
    confirmed_in r' = Some (Height b) /\
    block_pos r' = Some (wrap_i32 (Z.of_nat i)) /\
    row_payload r' = row_payload r.
Proof.
  intros Hok Hi Honly Hj Hhash.
  assert (Hfirst : forall (i' : nat) tx', (i' < i)%nat ->
            Transactions b !! i' = Some tx' -> tx_Hash tx' <> tx_Hash tx)
    by (intros i' tx' Hlt; apply Honly; lia).
  pose proof (block_positions_find b i tx Hi Hfirst) as Hfind.
  rewrite <- Hhash in Hfind.
  unfold addBlock, markPrevSpentInPool, bind, ret, pg_Exec, chainlog_Write,
    sql_set_confirmed, sql_set_spent_in_pool.
  destruct w as [tbl faults p tr lg].
  unfold fault_at in Hok. cbn [db_faults account_utxos] in Hok, Hj |- *.
  destruct faults as [| [e1 |] [| [e2 |] rest]]; try discriminate Hok;
    cbn -[confirm_rows mark_rows block_positions prevouts];
    rewrite ?mark_rows_lookup, confirm_rows_lookup, Hj; cbn [fmap option_fmap option_map];
    rewrite Hfind;
    try (destruct (decide (row_key (set_confirmed (Height b)
                                      (wrap_i32 (Z.of_nat i)) r)
                           ∈ prevouts conflicts)));
    eexists; (split; [reflexivity |]); repeat split; reflexivity.
Qed.

Lemma addBlock_confirms_witness :
  let w := set_account_utxos [spent_row; spender_row] empty_world in
  fault_at w 0 = None /\
  Transactions block8 !! 1%nat = Some spender /\
  (forall (i' : nat) tx', i' <> 1%nat ->
     Transactions block8 !! i' = Some tx' -> tx_Hash tx' <> tx_Hash spender) /\
  account_utxos w !! 1%nat = Some spender_row /\
  tx_hash spender_row = tx_Hash spender /\
  exists r' : utxo_row,
    account_utxos (addBlock block8 [] w).2 !! 1%nat = Some r' /\
    confirmed_in r' = Some (Height block8) /\
    block_pos r' = Some (wrap_i32 (Z.of_nat 1)) /\
    row_payload r' = row_payload spender_row.
Proof.
  intros w.
  assert (Hfirst : forall (i' : nat) tx', i' <> 1%nat ->
            Transactions block8 !! i' = Some tx' ->
            tx_Hash tx' <> tx_Hash spender).
  { intros [| [| i']] tx' Hne Htx'.
    - cbn in Htx'. injection Htx' as <-. discriminate.
    - contradiction.
    - cbn in Htx'. discriminate Htx'. }
  split; [reflexivity |]. split; [reflexivity |]. split; [exact Hfirst |].
  split; [reflexivity |]. split; [reflexivity |].
  exact (addBlock_confirms block8 [] w 1 1 spender spender_row
           eq_refl eq_refl Hfirst eq_refl eq_refl).
Defined.

(** X11: rows of transactions that are not in the block keep their
    confirmation columns, whatever the session does. *)
Theorem addBlock_leaves_other_transactions (b : Block) (conflicts : list Tx)
    (w : World) (j : nat) (r : utxo_row) :
  account_utxos w !! j = Some r ->
  tx_hash r ∉ tx_Hash <$> Transactions b ->
  exists r' : utxo_row,
    account_utxos (addBlock b conflicts w).2 !! j = Some r' /\
    confirmed_in r' = confirmed_in r /\
    block_pos r' = block_pos r.
Proof.
  intros Hj Habsent.
  pose proof (block_positions_absent b (tx_hash r) Habsent) as Hfind.
  unfold addBlock, markPrevSpentInPool, bind, ret, pg_Exec, chainlog_Write,
    sql_set_confirmed, sql_set_spent_in_pool.
  destruct w as [tbl faults p tr lg].
  cbn [db_faults account_utxos] in Hj |- *.
  destruct faults as [| [e1 |] [| [e2 |] rest]];
    cbn -[confirm_rows mark_rows block_positions prevouts];
    rewrite ?mark_rows_lookup, ?confirm_rows_lookup, Hj;
    cbn [fmap option_fmap option_map]; rewrite ?Hfind;
    try (destruct (decide (row_key r ∈ prevouts conflicts)));
    eexists; (split; [reflexivity |]); split; reflexivity.
Qed.

Lemma addBlock_leaves_other_transactions_witness :
  let w := set_account_utxos [spent_row; spender_row] empty_world in
  account_utxos w !! 0%nat = Some spent_row /\
  (tx_hash spent_row ∉ tx_Hash <$> Transactions block8) /\
  exists r' : utxo_row,
    account_utxos (addBlock block8 [spender] w).2 !! 0%nat = Some r' /\
    confirmed_in r' = confirmed_in spent_row /\
    block_pos r' = block_pos spent_row.
Proof.
  intros w.
  assert (Habsent : tx_hash spent_row ∉ tx_Hash <$> Transactions block8).
  { intros Hin. apply elem_of_cons in Hin as [Hin | Hin]; [discriminate Hin |].
    apply list_elem_of_singleton in Hin. discriminate Hin. }
  split; [reflexivity |]. split; [exact Habsent |].
  exact (addBlock_leaves_other_transactions block8 [spender] w 0 spent_row
           eq_refl Habsent).
Defined.

(** ** loadAccountInfo *)

Lemma script_key_inj (s1 s2 : bytes) : script_key s1 = script_key s2 -> s1 = s2.
Proof.
  unfold script_key. intros Heq.
  rewrite <- (String.list_byte_of_string_of_list_byte s1).
  rewrite <- (String.list_byte_of_string_of_list_byte s2).
  rewrite Heq. reflexivity.
Qed.

(** The Go map holds, under each script, the positions of the outputs
    with that script, in order. *)
Lemma group_by_script_lookup (outs : list Output) :
  forall (start : nat) (m : gmap string (list nat)) (k : string),
    default [] (group_by_script start outs m !! k)
    = default [] (m !! k) ++ matching start outs k.
Proof.
  induction outs as [| out rest IH]; intros start m k;
    cbn [group_by_script matching].
  - rewrite app_nil_r. reflexivity.
  - rewrite IH.
    destruct (decide (script_key (Script (out_TxOutput out)) = k)) as [-> | Hne].
    + rewrite lookup_insert_eq. cbn. rewrite <- app_assoc. reflexivity.
    + rewrite lookup_insert_ne by exact Hne. reflexivity.
Qed.

Lemma outsByScript_lookup (outs : list Output) (k : string) :
  default [] (outsByScript outs !! k) = matching 0 outs k.
Proof.
  unfold outsByScript. rewrite group_by_script_lookup, lookup_empty.
  reflexivity.
Qed.

Lemma elem_of_matching (outs : list Output) (k : string) :
  forall (start p : nat),
    p ∈ matching start outs k <->
    exists o, (start <= p)%nat /\ outs !! (p - start)%nat = Some o /\
              script_key (Script (out_TxOutput o)) = k.
Proof.
  induction outs as [| out rest IH]; intros start p; cbn [matching].
  - split; [intros H; inversion H |].
    intros (o & _ & Ho & _). rewrite lookup_nil in Ho. discriminate Ho.
  - rewrite elem_of_app, IH. split.
    + intros [Hhead | (o & Hle & Ho & Hk)].
      * destruct (decide (script_key (Script (out_TxOutput out)) = k))
          as [Hk | Hk]; [| inversion Hhead].
        apply list_elem_of_singleton in Hhead. subst p.
        exists out. rewrite Nat.sub_diag. split; [lia |].
        split; [reflexivity | exact Hk].
      * exists o. split; [lia |].
        replace (p - start)%nat with (S (p - S start)) by lia.
        split; [exact Ho | exact Hk].
    + intros (o & Hle & Ho & Hk).
      destruct (decide (p = start)) as [-> | Hne].
      * left. rewrite Nat.sub_diag in Ho. cbn in Ho. injection Ho as ->.
        rewrite decide_True by exact Hk. apply list_elem_of_singleton.
        reflexivity.
      * right. exists o. split; [lia |].
        replace (p - start)%nat with (S (p - S start)) in Ho by lia.
        split; [exact Ho | exact Hk].
Qed.

Lemma set_account_info_idem (a : address_row) (o : Output) :
  set_account_info a (set_account_info a o) = set_account_info a o.
Proof.
  unfold set_account_info. cbn. f_equal.
  destruct (addr_key_index a) as [| x [| y l]]; reflexivity.
Qed.

(** One scanned row: the pointers under its script are appended, and the
    objects they point to get the row's account. *)
Lemma resolve_ptrs (a : address_row) (ptrs : list nat) :
  forall st : list Output * list nat,
    let st' := foldl (fun st p => (alter (set_account_info a) p st.1,
                                   st.2 ++ [p])) st ptrs in
    st'.2 = st.2 ++ ptrs /\
    (forall p : nat,
       st'.1 !! p = (fun o => if decide (p ∈ ptrs)
                              then set_account_info a o else o) <$> st.1 !! p).
Proof.
  induction ptrs as [| q rest IH]; intros st; cbn [foldl].
  - split; [rewrite app_nil_r; reflexivity |].
    intros p. destruct (st.1 !! p); reflexivity.
  - destruct (IH (alter (set_account_info a) q st.1, st.2 ++ [q]))
      as [Hptrs Hobjs].
    cbn [fst snd] in Hptrs, Hobjs. cbn zeta.
    split; [rewrite Hptrs, <- app_assoc; reflexivity |].
    intros p. rewrite Hobjs, list_lookup_alter.
    destruct (decide (q = p)) as [-> | Hne];
      (destruct (st.1 !! p) as [o |]; [| reflexivity]);
      cbn [fmap option_fmap option_map].
    + destruct (decide (p ∈ p :: rest)) as [_ | Hno];
        [| exfalso; apply Hno, elem_of_cons; left; reflexivity].
      destruct (decide (p ∈ rest)); [rewrite set_account_info_idem |];
        reflexivity.
    + destruct (decide (p ∈ rest)) as [Hin | Hout].
      * rewrite decide_True by (apply elem_of_cons; right; exact Hin).
        reflexivity.
      * rewrite decide_False; [reflexivity |].
        intros Hin. apply elem_of_cons in Hin as [-> | Hin]; contradiction.
Qed.

Lemma resolve_row_spec (m : gmap string (list nat)) (a : address_row)
    (st : list Output * list nat) :
  (resolve_row m a st).2 = st.2 ++ default [] (m !! script_key (pk_script a)) /\
  (forall p : nat,
     (resolve_row m a st).1 !! p = resolved_by m a p <$> st.1 !! p).
Proof. unfold resolve_row, resolved_by. apply resolve_ptrs. Qed.

Lemma resolve_row_ident (m : gmap string (list nat)) (a : address_row)
    (st : list Output * list nat) :
  output_ident <$> (resolve_row m a st).1 = output_ident <$> st.1.
Proof.
  apply list_eq. intros p. rewrite !list_lookup_fmap.
  rewrite (proj2 (resolve_row_spec m a st) p).
  destruct (st.1 !! p) as [o |]; [| reflexivity]. cbn. unfold resolved_by.
  destruct (decide (p ∈ default [] (m !! script_key (pk_script a))));
    reflexivity.
Qed.

Lemma scan_rows_ident (m : gmap string (list nat)) (rows : list fetch) :
  forall st : list Output * list nat,
    output_ident <$> (scan_rows m rows st).1.1 = output_ident <$> st.1.
Proof.
  induction rows as [| [a | e] rows IH]; intros st; cbn [scan_rows].
  - reflexivity.
  - rewrite IH. apply resolve_row_ident.
  - reflexivity.
Qed.

Lemma scan_rows_fetched (m : gmap string (list nat)) (rows : list address_row) :
  forall st : list Output * list nat,
    scan_rows m (Fetched <$> rows) st
    = (foldl (fun st a => resolve_row m a st) st rows, None).
Proof.
  induction rows as [| a rows IH]; intros st; [reflexivity |].
  cbn [fmap list_fmap scan_rows foldl]. apply IH.
Qed.

Lemma fold_rows_spec (m : gmap string (list nat)) (rows : list address_row) :
  forall st : list Output * list nat,
    let st' := foldl (fun st a => resolve_row m a st) st rows in
    st'.2 = st.2 ++ flat_map (fun a => default [] (m !! script_key (pk_script a)))
                             rows /\
    (forall p : nat,
       st'.1 !! p
       = (fun o => foldl (fun o a => resolved_by m a p o) o rows) <$> st.1 !! p).
Proof.
  induction rows as [| a rows IH]; intros st; cbn [foldl flat_map].
  - split; [rewrite app_nil_r; reflexivity |].
    intros p. destruct (st.1 !! p); reflexivity.
  - destruct (IH (resolve_row m a st)) as [Hptrs Hobjs].
    destruct (resolve_row_spec m a st) as [Hptrs1 Hobjs1].
    cbn zeta. split.
    + rewrite Hptrs, Hptrs1, <- app_assoc. reflexivity.
    + intros p. rewrite Hobjs, Hobjs1.
      destruct (st.1 !! p); reflexivity.
Qed.

(** The cursor over a registry without failures delivers the selected
    rows. *)
Lemma sql_select_addresses_healthy (reg : Registry) (scripts : list bytes) :
  scan_faults reg = [] -> cursor_fault reg = None ->
  sql_select_addresses reg scripts
  = {| rows_fetched :=
         Fetched <$> filter (fun a => pk_script a ∈ scripts) (addresses reg);
       rows_Err := None |}.
Proof.
  intros Hscan Hcursor. unfold sql_select_addresses.
  rewrite Hscan, Hcursor. f_equal.
  rewrite <- imap_const. apply imap_ext. intros i a _.
  rewrite lookup_nil. reflexivity.
Qed.

(** [loadAccountInfo] on a session and a registry without failures. *)
Lemma loadAccountInfo_healthy (reg : Registry) (outs : list Output) (w : World) :
  db_faults w = [] -> scan_faults reg = [] -> cursor_fault reg = None ->
  loadAccountInfo reg outs w
  = (((resolved reg outs).1, (resolved reg outs).2, None), w).
Proof.
  intros Hfaults Hscan Hcursor. unfold loadAccountInfo, bind, ret, pg_Query.
  rewrite Hfaults. cbn [tail].
  rewrite (sql_select_addresses_healthy reg _ Hscan Hcursor).
  cbn [rows_fetched rows_Err]. rewrite scan_rows_fetched. cbn [fst snd].
  rewrite decide_False by (intros H; apply H; reflexivity).
  f_equal. destruct w. cbn in Hfaults. subst. reflexivity.
Qed.

Lemma matching_at (outs : list Output) (p : nat) (o : Output) (k : string) :
  outs !! p = Some o ->
  (p ∈ matching 0 outs k <-> script_key (Script (out_TxOutput o)) = k).
Proof.
  intros Hp. rewrite elem_of_matching, Nat.sub_0_r. split.
  - intros (o' & _ & Ho' & Hk). congruence.
  - intros Hk. exists o. split; [lia |]. split; [exact Hp | exact Hk].
Qed.

(** The pointers collected over the selected rows. *)
Lemma resolved_ptrs (reg : Registry) (outs : list Output) (p : nat) :
  p ∈ (resolved reg outs).2 <->
  exists o, outs !! p = Some o /\
            Script (out_TxOutput o) ∈ pk_script <$> addresses reg.
Proof.
  unfold resolved.
  rewrite (proj1 (fold_rows_spec (outsByScript outs) _ (outs, []))).
  cbn [snd app]. rewrite list_elem_of_In, in_flat_map. split.
  - intros (a & Ha & Hp). apply list_elem_of_In in Ha, Hp.
    apply list_elem_of_filter in Ha as [_ Ha].
    rewrite outsByScript_lookup in Hp.
    apply elem_of_matching in Hp as (o & _ & Ho & Hk).
    rewrite Nat.sub_0_r in Ho. exists o. split; [exact Ho |].
    apply script_key_inj in Hk. rewrite Hk.
    apply list_elem_of_fmap_2. exact Ha.
  - intros (o & Ho & Hreg).
    apply list_elem_of_fmap in Hreg as (a & Hscript & Ha).
    exists a. split; apply list_elem_of_In.
    + apply list_elem_of_filter. split; [| exact Ha].
      rewrite <- Hscript.
      apply (list_elem_of_fmap_2 (fun out => Script (out_TxOutput out))).
      apply list_elem_of_lookup. exists p. exact Ho.
    + rewrite outsByScript_lookup. apply (matching_at outs p o _ Ho).
      rewrite Hscript. reflexivity.
Qed.

(** X12: on a session and a registry without failures, [loadAccountInfo]
    returns no error and exactly the pointers to the outputs whose script
    is in the address registry; outputs with an unknown script are left
    out. *)
Theorem loadAccountInfo_selects (reg : Registry) (outs : list Output)
    (w : World) :
  db_faults w = [] -> scan_faults reg = [] -> cursor_fault reg = None ->
  let r := (loadAccountInfo reg outs w).1 in
  r.2 = None /\
  (forall p : nat,
     p ∈ r.1.2 <->
     exists o, outs !! p = Some o /\
               Script (out_TxOutput o) ∈ pk_script <$> addresses reg).
Proof.
  intros Hfaults Hscan Hcursor.
  rewrite (loadAccountInfo_healthy reg outs w Hfaults Hscan Hcursor).
  cbn [fst snd]. split; [reflexivity |]. apply resolved_ptrs.
Qed.

Lemma loadAccountInfo_selects_witness :
  db_faults empty_world = [] /\
  scan_faults registry2 = [] /\ cursor_fault registry2 = None /\
  let r := (loadAccountInfo registry2 (outputs_of payer) empty_world).1 in
  r.2 = None /\
  (forall p : nat,
     p ∈ r.1.2 <->
     exists o, outputs_of payer !! p = Some o /\
               Script (out_TxOutput o) ∈ pk_script <$> addresses registry2).
Proof.
  split; [reflexivity |]. split; [reflexivity |]. split; [reflexivity |].
  exact (loadAccountInfo_selects registry2 (outputs_of payer) empty_world
           eq_refl eq_refl eq_refl).
Defined.

(** X13: whatever the session and the cursor do, [loadAccountInfo] changes
    neither the number of the objects nor the transaction output and the
    outpoint of any of them, and with an error it returns no pointer. *)
Theorem loadAccountInfo_keeps_outputs (reg : Registry) (outs : list Output)
    (w : World) :
  let r := (loadAccountInfo reg outs w).1 in
  output_ident <$> r.1.1 = output_ident <$> outs /\
  (r.2 <> None -> r.1.2 = []).
Proof.
  unfold loadAccountInfo, bind, ret, pg_Query.
  destruct (db_faults w) as [| [e |] rest]; cbn [fst snd].
  - destruct (decide ((scan_rows _ _ (outs, [])).2 <> None)); cbn [fst snd];
      [| destruct (rows_Err _); cbn [fst snd]];
      (split; [apply (scan_rows_ident _ _ (outs, [])) |]);
      try reflexivity.
    intros H. contradiction.
  - split; reflexivity.
  - destruct (decide ((scan_rows _ _ (outs, [])).2 <> None)); cbn [fst snd];
      [| destruct (rows_Err _); cbn [fst snd]];
      (split; [apply (scan_rows_ident _ _ (outs, [])) |]);
      try reflexivity.
    intros H. contradiction.
Qed.

Lemma NoDup_fmap_same {A B : Type} (f : A -> B) (l : list A) (x y : A) :
  NoDup (f <$> l) -> x ∈ l -> y ∈ l -> f x = f y -> x = y.
Proof.
  induction l as [| z l IH]; intros Hnd Hx Hy Heq; [inversion Hx |].
  rewrite fmap_cons in Hnd. apply NoDup_cons in Hnd as [Hz Hnd].
  apply elem_of_cons in Hx as [-> | Hx]; apply elem_of_cons in Hy as [-> | Hy].
  - reflexivity.
  - exfalso. apply Hz. rewrite Heq. apply list_elem_of_fmap_2, Hy.
  - exfalso. apply Hz. rewrite <- Heq. apply list_elem_of_fmap_2, Hx.
  - apply IH; assumption.
Qed.

Lemma fold_resolved_fixed (m : gmap string (list nat)) (p : nat)
    (a : address_row) (rows : list address_row) :
  (forall a', a' ∈ rows ->
     p ∈ default [] (m !! script_key (pk_script a')) -> a' = a) ->
  forall o,
    foldl (fun o a' => resolved_by m a' p o) (set_account_info a o) rows
    = set_account_info a o.
Proof.
  induction rows as [| a0 rows IH]; intros Hall o; [reflexivity |].
  cbn [foldl]. unfold resolved_by at 2.
  destruct (decide (p ∈ default [] (m !! script_key (pk_script a0))))
    as [Hin | Hout].
  - rewrite (Hall a0) by (try apply elem_of_cons; auto).
    rewrite set_account_info_idem.
    apply IH. intros a' Ha'. apply Hall, elem_of_cons. right. exact Ha'.
  - apply IH. intros a' Ha'. apply Hall, elem_of_cons. right. exact Ha'.
Qed.

Lemma fold_resolved_unique (m : gmap string (list nat)) (p : nat)
    (a : address_row) (rows : list address_row) :
  (forall a', a' ∈ rows ->
     p ∈ default [] (m !! script_key (pk_script a')) -> a' = a) ->
  a ∈ rows ->
  p ∈ default [] (m !! script_key (pk_script a)) ->
  forall o,
    foldl (fun o a' => resolved_by m a' p o) o rows = set_account_info a o.
Proof.
  induction rows as [| a0 rows IH]; intros Hall Ha Hp o; [inversion Ha |].
  assert (Hrest : forall a', a' ∈ rows ->
            p ∈ default [] (m !! script_key (pk_script a')) -> a' = a)
    by (intros a' Ha'; apply Hall, elem_of_cons; right; exact Ha').
  cbn [foldl]. unfold resolved_by at 2.
  destruct (decide (p ∈ default [] (m !! script_key (pk_script a0))))
    as [Hin | Hout].
  - rewrite (Hall a0) by (try apply elem_of_cons; auto).
    apply fold_resolved_fixed. exact Hrest.
  - apply elem_of_cons in Ha as [-> | Ha]; [contradiction |].
    apply IH; assumption.
Qed.

Lemma fold_resolved_none (m : gmap string (list nat)) (p : nat)
    (rows : list address_row) :
  (forall a', a' ∈ rows ->
     p ∉ default [] (m !! script_key (pk_script a'))) ->
  forall o, foldl (fun o a' => resolved_by m a' p o) o rows = o.
Proof.
  induction rows as [| a0 rows IH]; intros Hall o; [reflexivity |].
  cbn [foldl]. unfold resolved_by at 2.
  rewrite decide_False by (apply Hall, elem_of_cons; left; reflexivity).
  apply IH. intros a' Ha'. apply Hall, elem_of_cons. right. exact Ha'.
Qed.

(** X14: on a session and a registry without failures, where no two
    addresses share a script, every output whose script is the script of
    an address is left with that address's manager node, account and
    (copied) index, and every output with an unknown script is left as it
    was. *)
Theorem loadAccountInfo_resolves (reg : Registry) (outs : list Output)
    (w : World) (p : nat) (o : Output) :
  db_faults w = [] -> scan_faults reg = [] -> cursor_fault reg = None ->
  NoDup (pk_script <$> addresses reg) ->
  outs !! p = Some o ->
  let objs := (loadAccountInfo reg outs w).1.1.1 in
  (forall a, a ∈ addresses reg -> pk_script a = Script (out_TxOutput o) ->
     objs !! p = Some (set_account_info a o)) /\
  (Script (out_TxOutput o) ∉ pk_script <$> addresses reg ->
     objs !! p = Some o).
Proof.
  intros Hfaults Hscan Hcursor Hnd Hp.
  rewrite (loadAccountInfo_healthy reg outs w Hfaults Hscan Hcursor).
  cbn [fst snd]. unfold resolved.
  rewrite (proj2 (fold_rows_spec (outsByScript outs) _ (outs, [])) p).
  cbn [fst]. rewrite Hp. cbn [fmap option_fmap option_map].
  assert (Hptr : forall a',
            p ∈ default [] (outsByScript outs !! script_key (pk_script a'))
            <-> pk_script a' = Script (out_TxOutput o)).
  { intros a'. rewrite outsByScript_lookup, (matching_at outs p o _ Hp).
    split; [intros H; symmetry; apply script_key_inj, H | intros ->; reflexivity]. }
  split.
  - intros a Ha Hscript. f_equal. apply fold_resolved_unique.
    + intros a' Ha' Hin. apply list_elem_of_filter in Ha' as [_ Ha'].
      apply Hptr in Hin.
      apply (NoDup_fmap_same pk_script (addresses reg)); try assumption.
      congruence.
    + apply list_elem_of_filter. split; [| exact Ha].
      rewrite Hscript.
      apply (list_elem_of_fmap_2 (fun out => Script (out_TxOutput out))).
      apply list_elem_of_lookup. exists p. exact Hp.
    + apply Hptr, Hscript.
  - intros Hunknown. f_equal. apply fold_resolved_none.
    intros a' Ha' Hin. apply list_elem_of_filter in Ha' as [_ Ha'].
    apply Hptr in Hin. apply Hunknown. rewrite <- Hin.
    apply list_elem_of_fmap_2, Ha'.
Qed.

Lemma loadAccountInfo_resolves_witness :
  db_faults empty_world = [] /\
  scan_faults registry2 = [] /\ cursor_fault registry2 = None /\
  NoDup (pk_script <$> addresses registry2) /\
  outputs_of payer !! 2%nat = Some payer_out2 /\
  let objs := (loadAccountInfo registry2 (outputs_of payer) empty_world).1.1.1 in
  (forall a, a ∈ addresses registry2 ->
     pk_script a = Script (out_TxOutput payer_out2) ->
     objs !! 2%nat = Some (set_account_info a payer_out2)) /\
  (Script (out_TxOutput payer_out2) ∉ pk_script <$> addresses registry2 ->
     objs !! 2%nat = Some payer_out2).
Proof.
  assert (Hnd : NoDup (pk_script <$> addresses registry2)).
  { apply NoDup_cons. split; [| apply NoDup_singleton].
    intros Hin. apply list_elem_of_singleton in Hin. discriminate Hin. }
  split; [reflexivity |]. split; [reflexivity |]. split; [reflexivity |].
  split; [exact Hnd |]. split; [reflexivity |].
  exact (loadAccountInfo_resolves registry2 (outputs_of payer) empty_world 2
           payer_out2 eq_refl eq_refl eq_refl Hnd eq_refl).
Defined.

(** ** addAccountData *)

Lemma resolved_ident (reg : Registry) (outs : list Output) :
  output_ident <$> (resolved reg outs).1 = output_ident <$> outs.
Proof.
  unfold resolved.
  pose proof (scan_rows_ident (outsByScript outs)
                (Fetched <$> filter (fun a => pk_script a
                     ∈ (fun out => Script (out_TxOutput out)) <$> outs)
                   (addresses reg)) (outs, [])) as Hident.
  rewrite scan_rows_fetched in Hident. exact Hident.
Qed.

(** The account of a resolved output is the account of an address with
    its script. *)
Lemma fold_resolved_account (m : gmap string (list nat)) (p : nat)
    (rows : list address_row) (o : Output) :
  (exists a, a ∈ rows /\ p ∈ default [] (m !! script_key (pk_script a))) ->
  exists a,
    a ∈ rows /\ p ∈ default [] (m !! script_key (pk_script a)) /\
    AccountID (foldl (fun o a' => resolved_by m a' p o) o rows)
      = addr_account_id a /\
    ManagerNodeID (foldl (fun o a' => resolved_by m a' p o) o rows)
      = addr_manager_node_id a.
Proof.
  induction rows as [| a0 rows IH] using rev_ind.
  - intros (a & Ha & _). inversion Ha.
  - intros (a & Ha & Hp). rewrite foldl_app. cbn [foldl].
    unfold resolved_by at 1 3.
    destruct (decide (p ∈ default [] (m !! script_key (pk_script a0))))
      as [Hin | Hout].
    + exists a0. split; [apply elem_of_app; right; apply list_elem_of_singleton;
                         reflexivity |].
      split; [exact Hin |]. split; reflexivity.
    + apply elem_of_app in Ha as [Ha | Ha].
      * destruct IH as (a1 & Ha1 & Hp1 & Hacc & Hmn);
          [exists a; split; assumption |].
        exists a1. split; [apply elem_of_app; left; exact Ha1 |].
        split; [exact Hp1 |]. split; assumption.
      * apply list_elem_of_singleton in Ha. subst a0. contradiction.
Qed.

(** Every object a returned pointer refers to is an output of the list
    with the account of an address that has its script. *)
Lemma resolved_objects (reg : Registry) (outs : list Output) (o' : Output) :
  o' ∈ deref (resolved reg outs).1 (resolved reg outs).2 ->
  exists (p : nat) (o : Output) (a : address_row),
    outs !! p = Some o /\
    output_ident o' = output_ident o /\
    a ∈ addresses reg /\
    pk_script a = Script (out_TxOutput o) /\
    AccountID o' = addr_account_id a /\
    ManagerNodeID o' = addr_manager_node_id a.
Proof.
  intros Hin. unfold deref in Hin.
  apply list_elem_of_omap in Hin as (p & Hp & Hobj).
  pose proof Hp as Hsel. apply resolved_ptrs in Hsel as (o & Ho & Hreg).
  exists p, o.
  assert (Hident : output_ident o' = output_ident o).
  { pose proof (resolved_ident reg outs) as Hall.
    apply (f_equal (fun l => l !! p)) in Hall.
    rewrite !list_lookup_fmap, Hobj, Ho in Hall.
    cbn [fmap option_fmap option_map] in Hall. congruence. }
  unfold resolved in Hobj, Hp.
  rewrite (proj2 (fold_rows_spec (outsByScript outs) _ (outs, [])) p) in Hobj.
  rewrite (proj1 (fold_rows_spec (outsByScript outs) _ (outs, []))) in Hp.
  cbn [fst snd app] in Hobj, Hp. rewrite Ho in Hobj. cbn in Hobj.
  injection Hobj as <-.
  apply list_elem_of_In, in_flat_map in Hp as (a0 & Ha0 & Hp0).
  apply list_elem_of_In in Ha0, Hp0.
  destruct (fold_resolved_account (outsByScript outs) p _ o
              (ex_intro _ a0 (conj Ha0 Hp0))) as (a & Ha & Hpa & Hacc & Hmn).
  exists a. split; [exact Ho |]. split; [exact Hident |].
  apply list_elem_of_filter in Ha as [_ Ha]. split; [exact Ha |].
  rewrite outsByScript_lookup in Hpa.
  apply (matching_at outs p o _ Ho) in Hpa. apply script_key_inj in Hpa.
  split; [symmetry; exact Hpa |]. split; assumption.
Qed.

(** [addAccountData] on a session and a registry without failures: the
    prevouts are marked, then the resolved outputs are inserted. *)
Lemma addAccountData_healthy (reg : Registry) (tx : Tx) (w : World) :
  db_faults w = [] -> scan_faults reg = [] -> cursor_fault reg = None ->
  addAccountData reg tx w =
    let w1 := set_account_utxos
                (mark_rows true (prevouts [tx]) (account_utxos w)) w in
    let r := insertAccountOutputs
               (deref (resolved reg (outputs_of tx)).1
                      (resolved reg (outputs_of tx)).2) w1 in
    (errors.Wrap r.1 "updating pool outputs", r.2).
Proof.
  intros Hfaults Hscan Hcursor.
  unfold addAccountData, bind at 1.
  assert (Hmark : markPrevSpentInPool true [tx] w
                  = (None, set_account_utxos
                             (mark_rows true (prevouts [tx]) (account_utxos w)) w)).
  { unfold markPrevSpentInPool, pg_Exec, sql_set_spent_in_pool.
    rewrite Hfaults. destruct w. cbn in Hfaults. subst. reflexivity. }
  rewrite Hmark.
  rewrite decide_False by (intros H; apply H; reflexivity).
  unfold bind at 1.
  rewrite loadAccountInfo_healthy by (try assumption; destruct w; exact Hfaults).
  cbn [fst snd].
  rewrite decide_False by (intros H; apply H; reflexivity).
  unfold bind, ret. cbn zeta.
  destruct (insertAccountOutputs _ _) as [err w2]. reflexivity.
Qed.

Lemma row_key_mark_rows (spent : bool) (keys : list (string * Z))
    (tbl : list utxo_row) :
  row_key <$> mark_rows spent keys tbl = row_key <$> tbl.
Proof.
  unfold mark_rows. rewrite <- list_fmap_compose. apply list_fmap_ext.
  intros i r _. cbn [compose].
  destruct (decide (row_key r ∈ keys)); reflexivity.
Qed.

(** The rows [addAccountData] proposes for a transaction. *)
Lemma materialized_row (reg : Registry) (tx : Tx) (row : utxo_row) :
  row ∈ proposed_row <$> deref (resolved reg (outputs_of tx)).1
                               (resolved reg (outputs_of tx)).2 ->
  tx_hash row = tx_Hash tx /\
  spent_in_pool row = false /\
  exists (i : nat) (out : TxOutput) (a : address_row),
    Outputs (tx_data tx) !! i = Some out /\
    index row = wrap_u32 (Z.of_nat i) /\
    asset_id row = AssetID out /\
    amount row = wrap_i64 (Amount out) /\
    script row = Script out /\
    metadata row = Metadata out /\
    a ∈ addresses reg /\
    pk_script a = Script out /\
    account_id row = addr_account_id a /\
    manager_node_id row = addr_manager_node_id a.
Proof.
  intros Hrow. apply list_elem_of_fmap in Hrow as (o' & -> & Ho').
  apply resolved_objects in Ho'
    as (p & o & a & Ho & Hident & Ha & Hscript & Hacc & Hmn).
  unfold outputs_of in Ho. rewrite list_lookup_imap in Ho.
  destruct (Outputs (tx_data tx) !! p) as [out |] eqn:Hout; [| discriminate Ho].
  cbn in Ho. injection Ho as <-.
  unfold output_ident in Hident. cbn in Hident.
  injection Hident as Htxout Hpoint.
  unfold proposed_row, Hash_String. cbn. rewrite Hpoint, Htxout. cbn.
  split; [reflexivity |]. split; [reflexivity |].
  exists p, out, a. cbn in Hscript.
  repeat (split; [first [reflexivity | assumption] |]). exact Hmn.
Qed.

(** X15: on a session and a registry without failures, [addAccountData]
    returns no error, marks the rows spent by the transaction and appends
    rows only: each new row is an output of this transaction (its hash,
    the output's position, asset, amount, script and metadata) whose
    script is the script of a registered address, with that address's
    account and manager node, and is not marked as spent. *)
Theorem addAccountData_materializes (reg : Registry) (tx : Tx) (w : World) :
  db_faults w = [] -> scan_faults reg = [] -> cursor_fault reg = None ->
  let r := addAccountData reg tx w in
  r.1 = None /\
  exists added : list utxo_row,
    account_utxos r.2
      = mark_rows true (prevouts [tx]) (account_utxos w) ++ added /\
    (forall row, row ∈ added ->
       tx_hash row = tx_Hash tx /\
       spent_in_pool row = false /\
       exists (i : nat) (out : TxOutput) (a : address_row),
         Outputs (tx_data tx) !! i = Some out /\
         index row = wrap_u32 (Z.of_nat i) /\
         asset_id row = AssetID out /\
         amount row = wrap_i64 (Amount out) /\
         script row = Script out /\
         metadata row = Metadata out /\
         a ∈ addresses reg /\
         pk_script a = Script out /\
         account_id row = addr_account_id a /\
         manager_node_id row = addr_manager_node_id a).
Proof.
  intros Hfaults Hscan Hcursor.
  rewrite (addAccountData_healthy reg tx w Hfaults Hscan Hcursor).
  destruct (sql_insert_DoNothing_added
              (proposed_row <$> deref (resolved reg (outputs_of tx)).1
                                      (resolved reg (outputs_of tx)).2)
              (mark_rows true (prevouts [tx]) (account_utxos w)))
    as (added & Heq & Hfrom & _).
  unfold insertAccountOutputs, bind, ret, pg_Exec. cbn zeta.
  destruct w as [tbl faults p tr lg]. cbn in Hfaults. subst faults.
  cbn [db_faults set_account_utxos account_utxos tail] in Heq |- *.
  rewrite Heq. cbn.
  split; [reflexivity |]. exists added. split; [reflexivity |].
  intros row Hrow. apply (materialized_row reg tx row), Hfrom, Hrow.
Qed.

Lemma addAccountData_materializes_witness :
  let w := set_account_utxos [proposed_row (sample_out "aa" 0)] empty_world in
  db_faults w = [] /\
  scan_faults registry2 = [] /\ cursor_fault registry2 = None /\
  let r := addAccountData registry2 payer w in
  r.1 = None /\
  exists added : list utxo_row,
    account_utxos r.2
      = mark_rows true (prevouts [payer]) (account_utxos w) ++ added /\
    (forall row, row ∈ added ->
       tx_hash row = tx_Hash payer /\
       spent_in_pool row = false /\
       exists (i : nat) (out : TxOutput) (a : address_row),
         Outputs (tx_data payer) !! i = Some out /\
         index row = wrap_u32 (Z.of_nat i) /\
         asset_id row = AssetID out /\
         amount row = wrap_i64 (Amount out) /\
         script row = Script out /\
         metadata row = Metadata out /\
         a ∈ addresses registry2 /\
         pk_script a = Script out /\
         account_id row = addr_account_id a /\
         manager_node_id row = addr_manager_node_id a).
Proof.
  intros w.
  split; [reflexivity |]. split; [reflexivity |]. split; [reflexivity |].
  exact (addAccountData_materializes registry2 payer w eq_refl eq_refl eq_refl).
Defined.

(** X16: on a session and a registry without failures and a store with
    unique keys, a second [addAccountData] for the same transaction (one
    that spends none of its own outputs) returns no error and changes
    nothing. *)
Theorem addAccountData_idempotent (reg : Registry) (tx : Tx) (w : World) :
  db_faults w = [] -> scan_faults reg = [] -> cursor_fault reg = None ->
  NoDup (row_key <$> account_utxos w) ->
  (forall k, k ∈ prevouts [tx] -> k.1 <> tx_Hash tx) ->
  let w1 := (addAccountData reg tx w).2 in
  addAccountData reg tx w1 = (None, w1).
Proof.
  intros Hfaults Hscan Hcursor Hnd Hown.
  rewrite (addAccountData_healthy reg tx w Hfaults Hscan Hcursor).
  set (proposed := proposed_row <$> deref (resolved reg (outputs_of tx)).1
                                         (resolved reg (outputs_of tx)).2).
  set (T0 := mark_rows true (prevouts [tx]) (account_utxos w)).
  assert (Hnd0 : NoDup (row_key <$> T0))
    by (unfold T0; rewrite row_key_mark_rows; exact Hnd).
  destruct (sql_insert_DoNothing_appends proposed T0 Hnd0)
    as (added & Heq & _ & Hkeys).
  destruct (sql_insert_DoNothing_added proposed T0)
    as (added' & Heq' & Hfrom & _).
  rewrite Heq in Heq'. injection Heq' as Heq'. apply app_inv_head in Heq'.
  subst added'.
  assert (Hmark : mark_rows true (prevouts [tx]) (T0 ++ added) = T0 ++ added).
  { unfold mark_rows at 1. rewrite fmap_app. f_equal.
    - apply mark_rows_idem.
    - rewrite <- (list_fmap_id added) at 2. apply list_fmap_ext.
      intros i row Hrow. apply list_elem_of_lookup_2 in Hrow.
      destruct (materialized_row reg tx row (proj1 (Hfrom row Hrow)))
        as (Hhash & _).
      rewrite decide_False; [reflexivity |].
      intros Hin. apply (Hown _ Hin). exact Hhash. }
  pose proof (sql_insert_DoNothing_present proposed (T0 ++ added) Hkeys)
    as Hagain.
  assert (Hfirst : insertAccountOutputs
                     (deref (resolved reg (outputs_of tx)).1
                            (resolved reg (outputs_of tx)).2)
                     (set_account_utxos T0 w)
                   = (None, set_account_utxos (T0 ++ added) w)).
  { unfold insertAccountOutputs, bind, ret, pg_Exec. cbn zeta.
    fold proposed. destruct w as [tbl faults p tr lg].
    cbn in Hfaults. subst faults.
    cbn [db_faults set_account_utxos account_utxos tail].
    rewrite Heq. reflexivity. }
  cbn zeta. rewrite Hfirst. cbn [fst snd].
  rewrite addAccountData_healthy
    by (try assumption; destruct w; exact Hfaults).
  cbn zeta.
  assert (Htbl : account_utxos (set_account_utxos (T0 ++ added) w) = T0 ++ added)
    by (destruct w; reflexivity).
  rewrite Htbl, Hmark.
  unfold insertAccountOutputs, bind, ret, pg_Exec. cbn zeta.
  fold proposed. destruct w as [tbl faults p tr lg].
  cbn in Hfaults. subst faults.
  cbn [db_faults set_account_utxos account_utxos tail pool trace log].
  rewrite Hagain. reflexivity.
Qed.

Lemma addAccountData_idempotent_witness :
  let w := set_account_utxos [proposed_row (sample_out "aa" 0)] empty_world in
  db_faults w = [] /\
  scan_faults registry2 = [] /\ cursor_fault registry2 = None /\
  NoDup (row_key <$> account_utxos w) /\
  (forall k, k ∈ prevouts [payer] -> k.1 <> tx_Hash payer) /\
  let w1 := (addAccountData registry2 payer w).2 in
  addAccountData registry2 payer w1 = (None, w1).
Proof.
  intros w.
  assert (Hnd : NoDup (row_key <$> account_utxos w)) by apply NoDup_singleton.
  assert (Hown : forall k, k ∈ prevouts [payer] -> k.1 <> tx_Hash payer).
  { intros k Hk. apply list_elem_of_singleton in Hk. subst k. discriminate. }
  split; [reflexivity |]. split; [reflexivity |]. split; [reflexivity |].
  split; [exact Hnd |]. split; [exact Hown |].
  exact (addAccountData_idempotent registry2 payer w eq_refl eq_refl eq_refl
           Hnd Hown).
Defined.

(** X17: when the marking of the prevouts fails, [addAccountData] returns
    that error at once: no row has changed, the registry has not been
    queried and nothing has been inserted. *)
Theorem addAccountData_marking_fails (reg : Registry) (tx : Tx) (w : World)
    (e : foreign_error) (rest : list (option foreign_error)) :
  db_faults w = Some e :: rest ->
  addAccountData reg tx w = (Some (of_foreign e), set_db_faults rest w).
Proof.
  intros Hfaults.
  unfold addAccountData, bind, ret, markPrevSpentInPool, pg_Exec.
  rewrite Hfaults. rewrite decide_True by discriminate.
  rewrite errors_Wrap_no_message. reflexivity.
Qed.

Lemma addAccountData_marking_fails_witness :
  let w := set_db_faults [Some relay_down] empty_world in
  db_faults w = Some relay_down :: [] /\
  addAccountData registry2 payer w
    = (Some (of_foreign relay_down), set_db_faults [] w).
Proof.
  intros w. split; [reflexivity |].
  exact (addAccountData_marking_fails registry2 payer w relay_down [] eq_refl).
Defined.

(** X18: when the marking succeeds and the registry query fails,
    [addAccountData] returns the query's error wrapped; the spend marks
    it has set stay, and no row is inserted. *)
Theorem addAccountData_loading_fails (reg : Registry) (tx : Tx) (w : World)
    (e : foreign_error) (rest : list (option foreign_error)) :
  db_faults w = None :: Some e :: rest ->
  let r := addAccountData reg tx w in
  r.1 = errors.Wrap (errors.Wrap (Some (of_foreign e)) "addresses select query")
                    "loading account info from addresses" /\
  errors.Root r.1 = Some (Foreign (f_root e)) /\
  account_utxos r.2 = mark_rows true (prevouts [tx]) (account_utxos w) /\
  db_faults r.2 = rest.
Proof.
  intros Hfaults.
  unfold addAccountData, bind, ret, markPrevSpentInPool, pg_Exec,
    sql_set_spent_in_pool, loadAccountInfo, pg_Query.
  rewrite Hfaults. cbn -[mark_rows prevouts outputs_of outsByScript].
  repeat split; reflexivity.
Qed.

Lemma addAccountData_loading_fails_witness :
  let w := set_db_faults [None; Some relay_down]
             (set_account_utxos [proposed_row (sample_out "aa" 0)] empty_world) in
  db_faults w = None :: Some relay_down :: [] /\
  let r := addAccountData registry2 payer w in
  r.1 = errors.Wrap (errors.Wrap (Some (of_foreign relay_down))
                                 "addresses select query")
                    "loading account info from addresses" /\
  errors.Root r.1 = Some (Foreign (f_root relay_down)) /\
  account_utxos r.2 = mark_rows true (prevouts [payer]) (account_utxos w) /\
  db_faults r.2 = [].
Proof.
  intros w. split; [reflexivity |].
  exact (addAccountData_loading_fails registry2 payer w relay_down [] eq_refl).
Defined.

(** ** publishTx and FinalizeTx *)

(** X19: [publishTx] returns nil exactly when the engine accepted the
    transaction and the relay is off ([Generator] unset or empty) or
    succeeded.  The transaction is added to the pool exactly when the
    engine accepted it, whatever the relay does, and the log is written
    exactly when the relay was tried and failed. *)
Theorem publishTx_outcome (env : Env) (msg : Tx) (w : World) :
  let r := publishTx env msg w in
  let relay_on := exists g, Generator env = Some g /\ g <> EmptyString in
  (r.1 = None <->
     fc_AddTx env msg = None /\
     (relay_on -> rpcclient_Submit env msg = None)) /\
  (fc_AddTx env msg = None -> pool r.2 = pool w ++ [msg]) /\
  (fc_AddTx env msg <> None -> pool r.2 = pool w) /\
  (log r.2 <> log w <->
     fc_AddTx env msg = None /\ relay_on /\ rpcclient_Submit env msg <> None).
Proof.
  unfold publishTx, bind, ret, AddTx, Submit, call, chainlog_Error,
    chainlog_Write.
  destruct (fc_AddTx env msg) as [e0 |] eqn:Hadd.
  - cbn [errors.Root of_foreign err_root].
    destruct (decide (Some (Foreign (f_root e0))
                      = Some (Foreign validation_ErrBadTx))) as [Hbad | Hother];
      [| rewrite decide_True by discriminate]; cbn [fst snd pool log set_trace];
      (split; [split; [| intros [H _]; discriminate H] |]).
    + intros Hnil.
      pose proof (Root_WithDetail
        (errors.Wrap (Some (errors.New ErrBadTxTemplate))
                     (Sprint_error (Some (of_foreign e0))))
        (errors.Detail (Some (of_foreign e0)))) as Hroot.
      rewrite Hnil, Root_Wrap in Hroot. discriminate Hroot.
    + split; [intros H; discriminate H |]. split; [reflexivity |].
      split; [intros H; contradiction | intros [H _]; discriminate H].
    + intros Hnil. discriminate Hnil.
    + split; [intros H; discriminate H |]. split; [reflexivity |].
      split; [intros H; contradiction | intros [H _]; discriminate H].
  - cbn [errors.Root].
    rewrite decide_False by discriminate.
    rewrite decide_False by (intros H; apply H; reflexivity).
    destruct (Generator env) as [g0 |] eqn:Hgen.
    + destruct (decide (g0 <> EmptyString)) as [Hne | Hempty].
      * destruct (rpcclient_Submit env msg) as [e1 |] eqn:Hsub;
          cbv beta iota zeta delta [bind ret fmap option_fmap option_map];
          [rewrite !decide_True by discriminate
          | rewrite !decide_False by (intros H; apply H; reflexivity)]; cbn.
        -- split.
           { split; [intros H; discriminate H |].
             intros [_ H]. discriminate H. exists g0. split; [reflexivity | exact Hne]. }
           split; [reflexivity |]. split; [intros H; contradiction |].
           split.
           ++ intros _. split; [reflexivity |].
              split; [exists g0; split; [reflexivity | exact Hne] | discriminate].
           ++ intros _ Heq. apply (f_equal length) in Heq.
              rewrite List.length_app in Heq. cbn in Heq. lia.
        -- split; [split; [intros _; split; [reflexivity | reflexivity] | reflexivity] |].
           split; [reflexivity |]. split; [intros H; contradiction |].
           split; [intros H; contradiction | intros (_ & _ & H); contradiction].
      * cbn. split.
        { split; [| reflexivity]. intros _. split; [reflexivity |].
          intros (g & Hg & Hgne). injection Hg as <-. contradiction. }
        split; [reflexivity |]. split; [intros H; contradiction |].
        split; [intros H; contradiction |].
        intros (_ & (g & Hg & Hgne) & _). injection Hg as <-. contradiction.
    + cbn. split.
      { split; [| reflexivity]. intros _. split; [reflexivity |].
        intros (g & Hg & _). discriminate Hg. }
      split; [reflexivity |]. split; [intros H; contradiction |].
      split; [intros H; contradiction |].
      intros (_ & (g & Hg & _) & _). discriminate Hg.
Qed.

Lemma publishTx_nil (env : Env) (msg : Tx) (w : World) :
  (publishTx env msg w).1 = None ->
  fc_AddTx env msg = None /\
  pool (publishTx env msg w).2 = pool w ++ [msg].
Proof.
  unfold publishTx, AddTx, Submit, call, chainlog_Error, chainlog_Write.
  cbv beta iota zeta delta [bind ret].
  destruct (fc_AddTx env msg) as [e0 |].
  - cbn [errors.Root of_foreign err_root].
    destruct (decide (Some (Foreign (f_root e0))
                      = Some (Foreign validation_ErrBadTx)));
      [| rewrite decide_True by discriminate]; cbn [fst snd]; intros Hnil.
    + pose proof (Root_WithDetail
        (errors.Wrap (Some (errors.New ErrBadTxTemplate))
                     (Sprint_error (Some (of_foreign e0))))
        (errors.Detail (Some (of_foreign e0)))) as Hroot.
      rewrite Hnil, Root_Wrap in Hroot. discriminate Hroot.
    + discriminate Hnil.
  - cbn [errors.Root].
    rewrite decide_False by discriminate.
    rewrite decide_False by (intros H; apply H; reflexivity).
    destruct (Generator env) as [g0 |]; [| intros _; split; reflexivity].
    destruct (decide (g0 <> EmptyString)); [| intros _; split; reflexivity].
    destruct (rpcclient_Submit env msg) as [e1 |];
      cbv beta iota zeta delta [fmap option_fmap option_map];
      [rewrite !decide_True by discriminate
      | rewrite !decide_False by (intros H; apply H; reflexivity)];
      cbn; intros Hnil; [discriminate Hnil | split; reflexivity].
Qed.

Lemma WithDetail_not_nil (e : error) (text : string) :
  errors.WithDetail (Some e) text <> None.
Proof.
  unfold errors.WithDetail. destruct (decide (text = EmptyString)); discriminate.
Qed.

(** What [FinalizeTx] returns: an error and no transaction, or the
    assembled transaction, accepted by the engine, and no error. *)
Lemma FinalizeTx_shape (env : Env) (t : Template) (w : World) :
  let r := FinalizeTx env t w in
  (r.1.1 = None /\ r.1.2 <> None) \/
  (exists msg,
     r.1 = (Some msg, None) /\
     (length (tpl_Inputs t) <= length (Inputs (Unsigned t)))%nat /\
     AssembleSignatures env t = Ok msg /\
     fc_AddTx env msg = None /\
     pool r.2 = pool w ++ [msg]).
Proof.
  unfold FinalizeTx.
  destruct (Nat.ltb_spec (length (Inputs (Unsigned t))) (length (tpl_Inputs t)))
    as [Hlt | Hle].
  - left. split; [reflexivity | apply WithDetail_not_nil].
  - cbv beta iota zeta delta [bind ret call].
    destruct (AssembleSignatures env t) as [msg | e] eqn:Hasm.
    + pose proof (publishTx_nil env msg
                    (set_trace (trace w ++ [CallAssembleSignatures t]) w))
        as Hnil.
      destruct (publishTx env msg _) as [err w'] eqn:Hpub.
      destruct (decide (err <> None)) as [Herr | Hok].
      * left. destruct err as [e |]; [| contradiction].
        destruct (MarshalText env msg); cbn; split;
          first [reflexivity | discriminate].
      * right. destruct err as [e |];
          [exfalso; apply Hok; discriminate |].
        exists msg. cbn [fst snd] in Hnil |- *.
        destruct (Hnil eq_refl) as [Hadd Hpool].
        split; [reflexivity |]. split; [exact Hle |].
        split; [reflexivity |]. split; [exact Hadd | exact Hpool].
    + left. split; [reflexivity | apply WithDetail_not_nil].
Qed.

(** X20: [FinalizeTx] returns exactly one of a transaction and an error.
    A returned transaction is the one [AssembleSignatures] made of a
    template with no more signature entries than inputs, the engine has
    accepted it and it is in the pool. *)
Theorem FinalizeTx_outcome (env : Env) (t : Template) (w : World) :
  let r := FinalizeTx env t w in
  (r.1.1 = None <-> r.1.2 <> None) /\
  (forall msg, r.1.1 = Some msg ->
     (length (tpl_Inputs t) <= length (Inputs (Unsigned t)))%nat /\
     AssembleSignatures env t = Ok msg /\
     fc_AddTx env msg = None /\
     pool r.2 = pool w ++ [msg]).
Proof.
  destruct (FinalizeTx_shape env t w)
    as [[Hnone Herr] | (msg & Hres & Hlen & Hasm & Hadd & Hpool)];
    cbn zeta.
  - split; [split; [intros _; exact Herr | intros _; exact Hnone] |].
    intros msg Hsome. rewrite Hnone in Hsome. discriminate Hsome.
  - rewrite Hres. cbn [fst snd]. split.
    + split; [intros H; discriminate H | intros H; contradiction].
    + intros msg' Hsome. injection Hsome as <-.
      repeat split; assumption.
Qed.

(** X21: when [AssembleSignatures] fails on a template that passes the
    length check, [FinalizeTx] returns [ErrBadTxTemplate] with the message
    of the failure as detail; the engine is not called and the pool is as
    before. *)
Theorem FinalizeTx_assembly_fails (env : Env) (t : Template) (w : World)
    (e : foreign_error) :
  (length (tpl_Inputs t) <= length (Inputs (Unsigned t)))%nat ->
  AssembleSignatures env t = Err e ->
  let r := FinalizeTx env t w in
  r.1.1 = None /\
  errors.Root r.1.2 = Some ErrBadTxTemplate /\
  errors.Detail r.1.2 = f_msg e /\
  r.2 = record [CallAssembleSignatures t] w.
Proof.
  intros Hlen Hasm. unfold FinalizeTx.
  apply Nat.ltb_ge in Hlen. rewrite Hlen.
  cbv beta iota zeta delta [bind ret call]. rewrite Hasm. cbn [fst snd].
  split; [reflexivity |].
  split; [rewrite Root_WithDetail; reflexivity |].
  split; [apply Detail_WithDetail_fresh; reflexivity | reflexivity].
Qed.

(** X22: when [publishTx] fails, [FinalizeTx] returns no transaction and
    that error with the same root and detail: wrapped with the marshalled
    transaction when [MarshalText] succeeds, unchanged when it fails. *)
Theorem FinalizeTx_submission_fails (env : Env) (t : Template) (w w2 : World)
    (msg : Tx) (e : error) :
  (length (tpl_Inputs t) <= length (Inputs (Unsigned t)))%nat ->
  AssembleSignatures env t = Ok msg ->
  publishTx env msg (record [CallAssembleSignatures t] w) = (Some e, w2) ->
  exists e' : error,
    FinalizeTx env t w = ((None, Some e'), w2) /\
    err_root e' = err_root e /\
    err_detail e' = err_detail e /\
    (forall x, MarshalText env msg = Err x -> e' = e) /\
    (forall rawtx, MarshalText env msg = Ok rawtx ->
       e' = errors.wrap e ("tx=" +:+ rawtx)).
Proof.
  intros Hlen Hasm Hpub. unfold FinalizeTx.
  apply Nat.ltb_ge in Hlen. rewrite Hlen.
  cbv beta iota zeta delta [bind ret call]. rewrite Hasm.
  change (set_trace (trace w ++ [CallAssembleSignatures t]) w)
    with (record [CallAssembleSignatures t] w).
  rewrite Hpub. rewrite decide_True by discriminate.
  destruct (MarshalText env msg) as [rawtx | x].
  - exists (errors.wrap e ("tx=" +:+ rawtx)). split; [reflexivity |].
    split; [apply err_root_wrap |]. split; [apply err_detail_wrap |].
    split; [intros x Hx; discriminate Hx |].
    intros raw Hraw. injection Hraw as <-. reflexivity.
  - exists e. split; [reflexivity |]. split; [reflexivity |].
    split; [reflexivity |]. split; [reflexivity |].
    intros raw Hraw. discriminate Hraw.
Qed.

Lemma FinalizeTx_assembly_fails_witness :
  let t := sample_template 1 in
  (length (tpl_Inputs t) <= length (Inputs (Unsigned t)))%nat /\
  AssembleSignatures sample_env_no_assembly t = Err assembly_fails /\
  let r := FinalizeTx sample_env_no_assembly t empty_world in
  r.1.1 = None /\
  errors.Root r.1.2 = Some ErrBadTxTemplate /\
  errors.Detail r.1.2 = f_msg assembly_fails /\
  r.2 = record [CallAssembleSignatures t] empty_world.
Proof.
  intros t.
  assert (Hlen : (length (tpl_Inputs t) <= length (Inputs (Unsigned t)))%nat)
    by (cbn; lia).
  split; [exact Hlen |]. split; [reflexivity |].
  exact (FinalizeTx_assembly_fails sample_env_no_assembly t empty_world
           assembly_fails Hlen eq_refl).
Defined.

Lemma FinalizeTx_submission_fails_witness :
  let env := sample_env None (Some relay_down) None (Ok None) [] in
  let t := sample_template 1 in
  let w0 := record [CallAssembleSignatures t] empty_world in
  let e := errors.wrap (of_foreign relay_down) "add tx to blockchain" in
  (length (tpl_Inputs t) <= length (Inputs (Unsigned t)))%nat /\
  AssembleSignatures env t = Ok spender /\
  publishTx env spender w0 = (Some e, (publishTx env spender w0).2) /\
  exists e' : error,
    FinalizeTx env t empty_world
      = ((None, Some e'), (publishTx env spender w0).2) /\
    err_root e' = err_root e /\
    err_detail e' = err_detail e /\
    (forall x, MarshalText env spender = Err x -> e' = e) /\
    (forall rawtx, MarshalText env spender = Ok rawtx ->
       e' = errors.wrap e ("tx=" +:+ rawtx)).
Proof.
  intros env t w0 e.
  assert (Hlen : (length (tpl_Inputs t) <= length (Inputs (Unsigned t)))%nat)
    by (cbn; lia).
  split; [exact Hlen |]. split; [reflexivity |]. split; [reflexivity |].
  exact (FinalizeTx_submission_fails env t empty_world
           (publishTx env spender w0).2 spender e Hlen eq_refl eq_refl).
Defined.

(** ** FinalizeTxWait *)

(** X23: when [LatestBlock] fails, [FinalizeTxWait] returns its error
    wrapped and has done nothing else: the template is not finalized and
    nothing is submitted. *)
Theorem FinalizeTxWait_latest_block_fails (env : Env) (t : Template)
    (w : World) (e : foreign_error) :
  fc_LatestBlock env = Err e ->
  FinalizeTxWait env t w
    = (Returned None (errors.Wrap (Some (of_foreign e)) "getting latest block"),
       record [CallLatestBlock] w) /\
  errors.Root (errors.Wrap (Some (of_foreign e)) "getting latest block")
    = Some (Foreign (f_root e)).
Proof.
  intros Hlatest. unfold FinalizeTxWait, bind, call, ret. rewrite Hlatest.
  split; [reflexivity | apply Root_Wrap].
Qed.

Lemma FinalizeTxWait_latest_block_fails_witness :
  let env := sample_env None None None (Err relay_down) [now_in_chain] in
  fc_LatestBlock env = Err relay_down /\
  FinalizeTxWait env (sample_template 1) empty_world
    = (Returned None (errors.Wrap (Some (of_foreign relay_down))
                                  "getting latest block"),
       record [CallLatestBlock] empty_world) /\
  errors.Root (errors.Wrap (Some (of_foreign relay_down)) "getting latest block")
    = Some (Foreign (f_root relay_down)).
Proof.
  intros env. split; [reflexivity |].
  exact (FinalizeTxWait_latest_block_fails env (sample_template 1) empty_world
           relay_down eq_refl).
Defined.

Lemma wait_loop_returned (tx : Tx) (events : list select_event) :
  forall (height : Z) (w : World),
    match (wait_loop tx height events w).1 with
    | Returned tx' err =>
        (tx' = Some tx /\ err = None) \/ (tx' = None /\ err <> None)
    | Waiting => True
    | Panicked => False
    end.
Proof.
  induction events as [| ev events IH]; intros height w.
  - exact I.
  - destruct ev as [c | [e |] [[poolTxs bcTxs] | e']].
    + right. split; [reflexivity | discriminate].
    + right. split; [reflexivity | discriminate].
    + right. split; [reflexivity | discriminate].
    + rewrite wait_loop_block. cbn zeta.
      destruct (decide (is_Some (bcTxs !! tx_Hash tx)));
        [left; split; reflexivity |].
      destruct (decide (poolTxs !! tx_Hash tx = None));
        [right; split; [reflexivity | discriminate] |].
      apply IH.
    + right. split; [reflexivity | discriminate].
Qed.

(** X24: [FinalizeTxWait] never panics, and when it returns it returns
    exactly one of a transaction and an error; a returned transaction is
    the one [FinalizeTx] produced. *)
Theorem FinalizeTxWait_result (env : Env) (t : Template) (w : World) :
  match (FinalizeTxWait env t w).1 with
  | Returned tx' err =>
      (tx' = None /\ err <> None) \/
      (err = None /\ tx' <> None /\
       tx' = (FinalizeTx env t (record [CallLatestBlock] w)).1.1)
  | Waiting => True
  | Panicked => False
  end.
Proof.
  unfold FinalizeTxWait, bind at 1, call.
  change (set_trace (trace w ++ [CallLatestBlock]) w)
    with (record [CallLatestBlock] w).
  destruct (fc_LatestBlock env) as [b | e].
  - unfold bind at 1.
    destruct (FinalizeTx_shape env t (record [CallLatestBlock] w))
      as [[Hnone Herr] | (msg & Hres & _)].
    + destruct (FinalizeTx env t (record [CallLatestBlock] w))
        as [[tx' err] w1].
      cbn [fst snd] in Hnone, Herr. subst tx'.
      destruct err as [e |]; [| contradiction].
      left. split; [reflexivity | discriminate].
    + destruct (FinalizeTx env t (record [CallLatestBlock] w))
        as [[tx' err] w1].
      cbn [fst] in Hres. injection Hres as -> ->.
      pose proof (wait_loop_returned msg (select_events env)
                    (match b with Some b0 => Height b0 | None => 0 end) w1)
        as Hloop.
      destruct (wait_loop msg _ (select_events env) w1) as [[tx' err | |] w2];
        cbn [fst] in Hloop |- *; [| exact I | exact Hloop].
      destruct Hloop as [[-> ->] | [-> Herr]].
      * right. split; [reflexivity |]. split; [discriminate | reflexivity].
      * left. split; [reflexivity | exact Herr].
  - left. split; [reflexivity | discriminate].
Qed.

(** X25: when [FinalizeTx] fails, [FinalizeTxWait] returns its error
    unchanged and does not wait for any block. *)
Theorem FinalizeTxWait_finalize_fails (env : Env) (t : Template)
    (w w1 : World) (b : option Block) (tx' : option Tx) (e : error) :
  fc_LatestBlock env = Ok b ->
  FinalizeTx env t (record [CallLatestBlock] w) = ((tx', Some e), w1) ->
  FinalizeTxWait env t w = (Returned None (Some e), w1).
Proof.
  intros Hlatest Hfinal. unfold FinalizeTxWait, bind at 1, call.
  rewrite Hlatest. unfold bind at 1.
  change (set_trace (trace w ++ [CallLatestBlock]) w)
    with (record [CallLatestBlock] w).
  rewrite Hfinal. destruct tx'; reflexivity.
Qed.

Lemma FinalizeTxWait_finalize_fails_witness :
  let env := sample_env None None None (Ok (Some block7)) [now_in_chain] in
  let t := sample_template 2 in
  let e := {| err_root := ErrBadTxTemplate;
              err_msg := "too many inputs in template: bad transaction template";
              err_detail := ["too many inputs in template"] |} in
  fc_LatestBlock env = Ok (Some block7) /\
  FinalizeTx env t (record [CallLatestBlock] empty_world)
    = ((None, Some e), record [CallLatestBlock] empty_world) /\
  FinalizeTxWait env t empty_world
    = (Returned None (Some e), record [CallLatestBlock] empty_world).
Proof.
  intros env t e. split; [reflexivity |]. split; [reflexivity |].
  exact (FinalizeTxWait_finalize_fails env t empty_world
           (record [CallLatestBlock] empty_world) (Some block7) None e
           eq_refl eq_refl).
Defined.

(** X26: as long as every landed block finds the transaction in the pool
    only, [FinalizeTxWait] does not return: after n such blocks it has
    asked [GetTxs] n times and waits for height captured+n+1. *)
Theorem FinalizeTxWait_stays_waiting (env : Env) (t : Template)
    (w w1 : World) (b : option Block) (tx : Tx) :
  fc_LatestBlock env = Ok b ->
  FinalizeTx env t (record [CallLatestBlock] w) = ((Some tx, None), w1) ->
  Forall (fun ev => in_pool_only (tx_Hash tx) ev = true) (select_events env) ->
  let captured := match b with Some b => Height b | None => 0 end in
  let n := length (select_events env) in
  FinalizeTxWait env t w
    = (Waiting,
       record (polls (tx_Hash tx) captured n ++
               [CallWaitForBlock (u64_add captured (Z.of_nat (S n)))]) w1).
Proof.
  intros Hlatest Hfinal Hpending captured n.
  rewrite (FinalizeTxWait_enters_loop env t w w1 b tx Hlatest Hfinal).
  fold captured.
  rewrite <- (app_nil_r (select_events env)).
  rewrite (wait_loop_pending tx (select_events env) captured [] w1 Hpending).
  fold n. cbn [wait_loop]. unfold bind, call, ret.
  change (set_trace (trace ?x ++ ?l) ?x) with (record l x).
  rewrite record_record. do 4 f_equal.
  clear. generalize captured. induction n as [| n IH]; intros c.
  - reflexivity.
  - rewrite Nat.iter_succ_r, IH, u64_add_succ. reflexivity.
Qed.

Lemma FinalizeTxWait_stays_waiting_witness :
  let env := sample_env None None None (Ok (Some block7))
                        [still_in_pool; still_in_pool] in
  let t := sample_template 1 in
  fc_LatestBlock env = Ok (Some block7) /\
  FinalizeTx env t (record [CallLatestBlock] empty_world)
    = ((Some spender, None), submitted) /\
  Forall (fun ev => in_pool_only (tx_Hash spender) ev = true)
         (select_events env) /\
  FinalizeTxWait env t empty_world
    = (Waiting,
       record (polls (tx_Hash spender) 7 2 ++
               [CallWaitForBlock (u64_add 7 (Z.of_nat 3))]) submitted).
Proof.
  intros env t.
  assert (Hall : Forall (fun ev => in_pool_only (tx_Hash spender) ev = true)
                        (select_events env)).
  { repeat (apply Forall_cons; split; [vm_compute; reflexivity |]).
    apply Forall_nil_2. }
  split; [reflexivity |]. split; [reflexivity |]. split; [exact Hall |].
  exact (FinalizeTxWait_stays_waiting env t empty_world submitted
           (Some block7) spender eq_refl eq_refl Hall).
Defined.

(** The loop only adds calls to the trace: it waits for consecutive
    heights and looks the transaction up. *)
Lemma wait_loop_calls (tx : Tx) (events : list select_event) :
  forall (height : Z) (w : World),
    exists (calls : list Call) (m : nat),
      (wait_loop tx height events w).2 = record calls w /\
      (1 <= m <= S (length events))%nat /\
      awaited calls = (fun k => u64_add height (Z.of_nat k)) <$> seq 1 m /\
      Forall (fun c => c = CallGetTxs (tx_Hash tx) \/
                       exists h, c = CallWaitForBlock h) calls.
Proof.
  induction events as [| ev events IH]; intros height w.
  - exists [CallWaitForBlock (u64_succ height)], 1%nat.
    split; [reflexivity |]. split; [cbn; lia |]. split; [reflexivity |].
    apply Forall_cons. split; [right; eexists; reflexivity | apply Forall_nil_2].
  - assert (Hone : forall o : outcome,
              exists (calls : list Call) (m : nat),
                (o, record [CallWaitForBlock (u64_succ height)] w).2
                  = record calls w /\
                (1 <= m <= S (length (ev :: events)))%nat /\
                awaited calls
                  = (fun k => u64_add height (Z.of_nat k)) <$> seq 1 m /\
                Forall (fun c => c = CallGetTxs (tx_Hash tx) \/
                                 exists h, c = CallWaitForBlock h) calls).
    { intros o. exists [CallWaitForBlock (u64_succ height)], 1%nat.
      split; [reflexivity |]. split; [cbn; lia |]. split; [reflexivity |].
      apply Forall_cons.
      split; [right; eexists; reflexivity | apply Forall_nil_2]. }
    assert (Htwo : forall o : outcome,
              exists (calls : list Call) (m : nat),
                (o, record [CallWaitForBlock (u64_succ height);
                            CallGetTxs (tx_Hash tx)] w).2
                  = record calls w /\
                (1 <= m <= S (length (ev :: events)))%nat /\
                awaited calls
                  = (fun k => u64_add height (Z.of_nat k)) <$> seq 1 m /\
                Forall (fun c => c = CallGetTxs (tx_Hash tx) \/
                                 exists h, c = CallWaitForBlock h) calls).
    { intros o.
      exists [CallWaitForBlock (u64_succ height); CallGetTxs (tx_Hash tx)],
             1%nat.
      split; [reflexivity |]. split; [cbn; lia |]. split; [reflexivity |].
      apply Forall_cons. split; [right; eexists; reflexivity |].
      apply Forall_cons. split; [left; reflexivity | apply Forall_nil_2]. }
    destruct ev as [c | [e |] [[poolTxs bcTxs] | e']].
    + apply Hone.
    + apply Hone.
    + apply Hone.
    + rewrite wait_loop_block. cbn zeta.
      destruct (decide (is_Some (bcTxs !! tx_Hash tx))); [apply Htwo |].
      destruct (decide (poolTxs !! tx_Hash tx = None)); [apply Htwo |].
      destruct (IH (u64_succ height)
                   (record [CallWaitForBlock (u64_succ height);
                            CallGetTxs (tx_Hash tx)] w))
        as (calls & m & Hw & Hm & Hheights & Hkinds).
      exists ([CallWaitForBlock (u64_succ height); CallGetTxs (tx_Hash tx)]
              ++ calls), (S m).
      split; [rewrite Hw; apply record_record |].
      split; [cbn [length] in *; lia |]. split.
      * cbn [app awaited omap list_omap]. fold (awaited calls).
        rewrite Hheights. cbn [seq fmap list_fmap].
        change (u64_add height (Z.of_nat 1)) with (u64_succ height). f_equal.
        rewrite <- (fmap_S_seq 1 m), <- list_fmap_compose.
        apply list_fmap_ext. intros i k _. cbn [compose]. apply u64_add_succ.
      * apply Forall_app. split; [| exact Hkinds].
        apply Forall_cons. split; [right; eexists; reflexivity |].
        apply Forall_cons. split; [left; reflexivity | apply Forall_nil_2].
    + destruct (Htwo Waiting) as (calls & m & Hw & Hrest).
      exists calls, m. split; [| exact Hrest].
      cbn [snd] in Hw. rewrite <- Hw.
      cbn [wait_loop]. unfold bind, call, ret, record, set_trace. cbn.
      rewrite <- app_assoc. reflexivity.
Qed.

(** X27: whatever the select delivers, once [FinalizeTx] has succeeded
    [FinalizeTxWait] only waits for blocks and looks the transaction up:
    it waits for the heights captured+1, ..., captured+m (as [uint64]s, at
    least one and at most one more than the events it has received),
    asks [GetTxs] for this transaction only, submits nothing again and
    touches neither the store, the pool nor the log. *)
Theorem FinalizeTxWait_only_polls (env : Env) (t : Template)
    (w w1 : World) (b : option Block) (tx : Tx) :
  fc_LatestBlock env = Ok b ->
  FinalizeTx env t (record [CallLatestBlock] w) = ((Some tx, None), w1) ->
  let captured := match b with Some b => Height b | None => 0 end in
  exists (calls : list Call) (m : nat),
    (FinalizeTxWait env t w).2 = record calls w1 /\
    (1 <= m <= S (length (select_events env)))%nat /\
    awaited calls = (fun k => u64_add captured (Z.of_nat k)) <$> seq 1 m /\
    Forall (fun c => c = CallGetTxs (tx_Hash tx) \/
                     exists h, c = CallWaitForBlock h) calls.
Proof.
  intros Hlatest Hfinal captured.
  rewrite (FinalizeTxWait_enters_loop env t w w1 b tx Hlatest Hfinal).
  apply wait_loop_calls.
Qed.

Lemma FinalizeTxWait_only_polls_witness :
  let env := sample_env None None None (Ok (Some block7))
                        [still_in_pool; now_in_chain] in
  let t := sample_template 1 in
  fc_LatestBlock env = Ok (Some block7) /\
  FinalizeTx env t (record [CallLatestBlock] empty_world)
    = ((Some spender, None), submitted) /\
  exists (calls : list Call) (m : nat),
    (FinalizeTxWait env t empty_world).2 = record calls submitted /\
    (1 <= m <= S (length (select_events env)))%nat /\
    awaited calls = (fun k => u64_add 7 (Z.of_nat k)) <$> seq 1 m /\
    Forall (fun c => c = CallGetTxs (tx_Hash spender) \/
                     exists h, c = CallWaitForBlock h) calls.
Proof.
  intros env t. split; [reflexivity |]. split; [reflexivity |].
  exact (FinalizeTxWait_only_polls env t empty_world submitted (Some block7)
           spender eq_refl eq_refl).
Defined.

(** X28: when, after blocks that found the transaction in the pool only,
    [WaitForBlock] or [GetTxs] fails, [FinalizeTxWait] returns no
    transaction and that failure wrapped: its root is the engine's, so it
    is never [ErrRejected]. *)
Theorem FinalizeTxWait_engine_failure (env : Env) (t : Template)
    (w w1 : World) (b : option Block) (tx : Tx)
    (pending rest : list select_event) (ev : select_event)
    (e : foreign_error) :
  fc_LatestBlock env = Ok b ->
  FinalizeTx env t (record [CallLatestBlock] w) = ((Some tx, None), w1) ->
  select_events env = pending ++ ev :: rest ->
  Forall (fun ev => in_pool_only (tx_Hash tx) ev = true) pending ->
  engine_failure ev = Some e ->
  exists err : error,
    (FinalizeTxWait env t w).1 = Returned None (Some err) /\
    err_root err = Foreign (f_root e) /\
    err_detail err = f_detail e /\
    err_root err <> ErrRejected.
Proof.
  intros Hlatest Hfinal Hevents Hpending Hfail.
  rewrite (FinalizeTxWait_enters_loop env t w w1 b tx Hlatest Hfinal).
  rewrite Hevents, (wait_loop_pending tx pending _ _ w1 Hpending).
  destruct ev as [c | [e0 |] [[poolTxs bcTxs] | e']]; cbn in Hfail;
    try discriminate Hfail; injection Hfail as ->;
    cbn [wait_loop]; unfold bind, call, ret; cbn [fst snd];
    eexists; (split; [reflexivity |]);
    rewrite err_root_wrap, err_detail_wrap;
    repeat split; discriminate.
Qed.

Lemma FinalizeTxWait_engine_failure_witness :
  let ev := BlockWaited None (Err relay_down) in
  let env := sample_env None None None (Ok (Some block7))
                        [still_in_pool; ev] in
  let t := sample_template 1 in
  fc_LatestBlock env = Ok (Some block7) /\
  FinalizeTx env t (record [CallLatestBlock] empty_world)
    = ((Some spender, None), submitted) /\
  select_events env = [still_in_pool] ++ ev :: [] /\
  Forall (fun ev => in_pool_only (tx_Hash spender) ev = true) [still_in_pool] /\
  engine_failure ev = Some relay_down /\
  exists err : error,
    (FinalizeTxWait env t empty_world).1 = Returned None (Some err) /\
    err_root err = Foreign (f_root relay_down) /\
    err_detail err = f_detail relay_down /\
    err_root err <> ErrRejected.
Proof.
  intros ev env t.
  assert (Hall : Forall (fun ev => in_pool_only (tx_Hash spender) ev = true)
                        [still_in_pool]).
  { apply Forall_cons. split; [vm_compute; reflexivity | apply Forall_nil_2]. }
  split; [reflexivity |]. split; [reflexivity |]. split; [reflexivity |].
  split; [exact Hall |]. split; [reflexivity |].
  exact (FinalizeTxWait_engine_failure env t empty_world submitted
           (Some block7) spender [still_in_pool] [] ev relay_down
           eq_refl eq_refl eq_refl Hall eq_refl).
Defined.
